(** * Message extraction from a TypeScript/TSX syntax tree

    A shallow embedding of [src/index.ts]: the extractor that walks a parsed
    source file and collects react-intl message descriptors from
    [<FormattedMessage .../>] elements, [defineMessages({...})] declarations
    and [formatMessage({...})] declarations.

    The parser ([ts.createSourceFile]) is an external collaborator: the
    embedding starts from the tree it returns. *)

From stdpp Require Import base option list strings gmap fin_maps.

Open Scope string_scope.
Open Scope list_scope.

Set Warnings "-register-all".

(** ** Syntax tree *)

(** The literal token kinds, other than string literals and
    no-substitution templates, for which [ts.isLiteralExpression] holds. *)
Inductive LiteralKind :=
  | NumericLiteral
  | BigIntLiteral
  | RegularExpressionLiteral
  | JsxText.

(** [ts.Node], restricted to the fields the extractor reads and the children
    that [ts.forEachChild] visits.  Every syntax kind that the extractor
    never inspects (statements, blocks, functions, binary expressions, type
    nodes, JSX elements and fragments, ...) is an [Other] node, labelled with
    its kind and carrying its children in source order.

    Two simplifications of the tree shape, neither of which any visitor of
    [index.ts] can observe: punctuation and keyword tokens ([?.], [!],
    [...], modifiers, the end-of-file token) are leaves that no predicate of
    the program accepts, and are left out; the [JsxAttributes] node between
    an opening element and its attribute list is fused into the element, so
    [attributes] below is [element.attributes.properties].

    [MethodDeclaration] stands for the named members of an object literal
    that are not assignments (methods and accessors); [rest] holds their
    parameters, type and body.  The name of a [JsxAttribute] is an
    [Identifier] in the trees of the compiler version the program is
    written for, where [attr.name.text] is well typed. *)
Inductive Node :=
  | SourceFile (statements : list Node)
  | Identifier (text : string)
  | StringLiteral (text : string)
  | NoSubstitutionTemplateLiteral (text : string)
  | LiteralToken (kind : LiteralKind) (text : string)
  | VariableDeclaration (name : Node) (type : option Node)
      (initializer : option Node)
  | CallExpression (expression : Node) (typeArguments : list Node)
      (arguments : list Node)
  | ObjectLiteralExpression (properties : list Node)
  | PropertyAssignment (name : Node) (initializer : Node)
  | ShorthandPropertyAssignment (name : Node)
      (objectAssignmentInitializer : option Node)
  | SpreadAssignment (expression : Node)
  | MethodDeclaration (name : Node) (rest : list Node)
  | JsxOpeningElement (tagName : Node) (typeArguments : list Node)
      (attributes : list Node)
  | JsxSelfClosingElement (tagName : Node) (typeArguments : list Node)
      (attributes : list Node)
  | JsxAttribute (name : Node) (initializer : option Node)
  | JsxSpreadAttribute (expression : Node)
  | JsxExpression (expression : option Node)
  | Other (kind : string) (children : list Node).

(** *** Kind tests ([ts.isXxx]) *)

Definition isVariableDeclaration (n : Node) : bool :=
  match n with VariableDeclaration _ _ _ => true | _ => false end.

Definition isIdentifier (n : Node) : bool :=
  match n with Identifier _ => true | _ => false end.

Definition isStringLiteral (n : Node) : bool :=
  match n with StringLiteral _ => true | _ => false end.

Definition isNoSubstitutionTemplateLiteral (n : Node) : bool :=
  match n with NoSubstitutionTemplateLiteral _ => true | _ => false end.

(** [SyntaxKind.FirstLiteralToken <= kind <= SyntaxKind.LastLiteralToken]. *)
Definition isLiteralExpression (n : Node) : bool :=
  match n with
  | StringLiteral _ | NoSubstitutionTemplateLiteral _ | LiteralToken _ _ => true
  | _ => false
  end.

Definition isObjectLiteralExpression (n : Node) : bool :=
  match n with ObjectLiteralExpression _ => true | _ => false end.

Definition isJsxOpeningLikeElement (n : Node) : bool :=
  match n with
  | JsxOpeningElement _ _ _ | JsxSelfClosingElement _ _ _ => true
  | _ => false
  end.

(** *** Field accessors *)

(** [n.text] of identifiers and literal tokens.  The program reads it from
    other nodes nowhere but in [attr.name.text]; there the empty string
    stands for [undefined], which, like it, is no key of a message. *)
Definition text_of (n : Node) : string :=
  match n with
  | Identifier t | StringLiteral t | NoSubstitutionTemplateLiteral t
  | LiteralToken _ t => t
  | _ => ""
  end.

(** [p.name] of an object literal element; a spread element has none. *)
Definition name_of (p : Node) : option Node :=
  match p with
  | PropertyAssignment nm _ | ShorthandPropertyAssignment nm _
  | MethodDeclaration nm _ => Some nm
  | _ => None
  end.

(** [obj.properties] of an object literal. *)
Definition properties_of (obj : Node) : list Node :=
  match obj with
  | ObjectLiteralExpression properties => properties
  | _ => []
  end.

(** [n.tagName] of an opening or self-closing element. *)
Definition tagName_of (n : Node) : option Node :=
  match n with
  | JsxOpeningElement tagName _ _ | JsxSelfClosingElement tagName _ _ =>
      Some tagName
  | _ => None
  end.

(** [element.attributes.properties]. *)
Definition attributes_of (element : Node) : list Node :=
  match element with
  | JsxOpeningElement _ _ attributes | JsxSelfClosingElement _ _ attributes =>
      attributes
  | _ => []
  end.

(** ** Tree traversal ([ts.forEachChild]) *)

(** A visitor reads and updates the array it pushes to, and returns a value
    that [forEachChild] tests for truthiness: [Some r] is a truthy result,
    [None] is [undefined]. *)
Definition Visitor (St R : Type) : Type := Node → St → option R * St.

Section forEachChild.
Context {St R : Type}.
Variable cbNode : Visitor St R.

(** [visitNode]: an absent child is skipped. *)
Definition visitNode (c : option Node) (s : St) : option R * St :=
  match c with
  | Some n => cbNode n s
  | None => (None, s)
  end.

(** [visitNodes]: the children of a node array in order, stopping at the
    first truthy result. *)
Fixpoint visitNodes (cs : list Node) (s : St) : option R * St :=
  match cs with
  | [] => (None, s)
  | c :: cs' =>
      match cbNode c s with
      | (Some r, s') => (Some r, s')
      | (None, s') => visitNodes cs' s'
      end
  end.

(** [a || b] on visits: [b] runs only when [a] returned nothing truthy. *)
Definition orElse (a b : St → option R * St) (s : St) : option R * St :=
  match a s with
  | (Some r, s') => (Some r, s')
  | (None, s') => b s'
  end.
End forEachChild.

Infix "<|>" := orElse (at level 60, right associativity).

(** [ts.forEachChild(node, cbNode)]: the children of each kind, in source
    order, as in the compiler's table. *)
Definition forEachChild {St R} (node : Node) (cbNode : Visitor St R)
  : St → option R * St :=
  match node with
  | SourceFile statements => visitNodes cbNode statements
  | Identifier _ | StringLiteral _ | NoSubstitutionTemplateLiteral _
  | LiteralToken _ _ => λ s, (None, s)
  | VariableDeclaration name type initializer =>
      cbNode name <|> visitNode cbNode type <|> visitNode cbNode initializer
  | CallExpression expression typeArguments arguments =>
      cbNode expression <|> visitNodes cbNode typeArguments
        <|> visitNodes cbNode arguments
  | ObjectLiteralExpression properties => visitNodes cbNode properties
  | PropertyAssignment name initializer => cbNode name <|> cbNode initializer
  | ShorthandPropertyAssignment name init =>
      cbNode name <|> visitNode cbNode init
  | SpreadAssignment expression => cbNode expression
  | MethodDeclaration name rest => cbNode name <|> visitNodes cbNode rest
  | JsxOpeningElement tagName typeArguments attributes
  | JsxSelfClosingElement tagName typeArguments attributes =>
      cbNode tagName <|> visitNodes cbNode typeArguments
        <|> visitNodes cbNode attributes
  | JsxAttribute name initializer =>
      cbNode name <|> visitNode cbNode initializer
  | JsxSpreadAttribute expression => cbNode expression
  | JsxExpression expression => visitNode cbNode expression
  | Other _ children => visitNodes cbNode children
  end.

(** ** Messages *)

(** [Partial<Message>]: a JavaScript object used as a map from property
    names to strings.  A [Message] is the same object, once
    [isValidMessage] has accepted it. *)
Abbreviation PartialMessage := (gmap string string).
Abbreviation Message := (gmap string string).

(** sets [target[key] = value], but only if it is a legal Message key *)
Definition copyIfMessageKey (target : PartialMessage) (key value : string)
  : PartialMessage :=
  if bool_decide (key = "defaultMessage") then <[key := value]> target
  else if bool_decide (key = "description") then <[key := value]> target
  else if bool_decide (key = "id") then <[key := value]> target
  else target.

(** are the required keys of a valid Message present? *)
Definition isValidMessage (obj : PartialMessage) : bool :=
  bool_decide (is_Some (obj !! "id"))
  && bool_decide (is_Some (obj !! "defaultMessage")).

(** A JavaScript array that is only ever pushed to. *)
Definition push {A} (x : A) (arr : list A) : list A := arr ++ [x].

(** ** The extractor, function by function *)

Definition isMethodCall (el : Node) (methodName : string) : bool :=
  match el with
  | VariableDeclaration _ _ (Some (CallExpression expression _ _)) =>
      isIdentifier expression && bool_decide (text_of expression = methodName)
  | _ => false
  end.

(** The body of the inner [forEach] of [extractMessagesForDefineMessages]:
    one property [ip] of an inner object literal, written into [msg]. *)
Definition defineMessagesField (msg : PartialMessage) (ip : Node)
  : PartialMessage :=
  match name_of ip with
  | Some name =>
      if isIdentifier name || isLiteralExpression name then
        match ip with
        | PropertyAssignment _ initializer =>
            if isStringLiteral initializer
               || isNoSubstitutionTemplateLiteral initializer
            then copyIfMessageKey msg (text_of name) (text_of initializer)
            else msg
        | _ => msg
        end
      else msg
  | None => msg
  end.

(** The body of the outer [forEach]: one property [p] of the outer object
    literal, with a fresh [msg], pushed to [messages] when valid. *)
Definition defineMessagesProperty (messages : list Message) (p : Node)
  : list Message :=
  match p with
  | PropertyAssignment _ (ObjectLiteralExpression properties) =>
      let msg := foldl defineMessagesField ∅ properties in
      if isValidMessage msg then push msg messages else messages
  | _ => messages
  end.

Definition extractMessagesForDefineMessages (objLiteral : Node)
  : list Message :=
  foldl defineMessagesProperty [] (properties_of objLiteral).

(** The body of the [forEach] of [extractMessagesForFormatMessage]. *)
Definition formatMessageProperty (msg : PartialMessage) (p : Node)
  : PartialMessage :=
  match p with
  | PropertyAssignment name initializer =>
      if (isIdentifier name || isLiteralExpression name)
         && isStringLiteral initializer
      then copyIfMessageKey msg (text_of name) (text_of initializer)
      else msg
  | _ => msg
  end.

Definition extractMessagesForFormatMessage (objLiteral : Node)
  : list Message :=
  let msg := foldl formatMessageProperty ∅ (properties_of objLiteral) in
  if isValidMessage msg then [msg] else [].

Section extractMessagesForNode.
Variable extractMessages : Node → list Message.

(** The local function [find]; [res] is the array it pushes to. *)
Fixpoint find (n : Node) (res : list Message) {struct n}
  : option (list Message) * list Message :=
  if isObjectLiteralExpression n then (None, res ++ extractMessages n)
  else forEachChild n find res.

Definition extractMessagesForNode (node : Node) : list Message :=
  snd (find node []).
End extractMessagesForNode.

(** [cb] updates the state it closes over; the arrow function handed to
    [forEachChild] returns nothing. *)
Fixpoint forAllVarDecls {St} (node : Node) (cb : Node → St → St) (s : St)
  {struct node} : St :=
  if isVariableDeclaration node then cb node s
  else snd (forEachChild (R := Empty_set) node
              (λ n s', (None, forAllVarDecls n cb s')) s).

Section findJsxOpeningLikeElementsWithName.
Variable tagName : string.

(** The local function [findJsxElement], declared to return
    [undefined]; [messages] is the array of elements it pushes to. *)
Fixpoint findJsxElement (n : Node) (messages : list Node) {struct n}
  : option Empty_set * list Node :=
  let messages :=
    match tagName_of n with
    | Some childTagName =>
        if isIdentifier childTagName then
          if bool_decide (text_of childTagName = tagName)
          then push n messages else messages
        else messages
    | None => messages
    end in
  forEachChild n findJsxElement messages.

Definition findJsxOpeningLikeElementsWithName (node : Node) : list Node :=
  snd (findJsxElement node []).
End findJsxOpeningLikeElementsWithName.

(** The callback that [findMethodCallsWithName] hands to
    [forAllVarDecls]. *)
Definition collectMethodCall (methodName : string)
    (extractMessages : Node → list Message)
    (decl : Node) (messages : list Message) : list Message :=
  if isMethodCall decl methodName then
    match decl with
    | VariableDeclaration _ _ (Some (CallExpression _ _ (nodeProps :: _))) =>
        let declMessages := extractMessagesForNode extractMessages nodeProps in
        messages ++ declMessages
    | _ => messages
    end
  else messages.

Definition findMethodCallsWithName (sourceFile : Node) (methodName : string)
    (extractMessages : Node → list Message) : list Message :=
  forAllVarDecls sourceFile (collectMethodCall methodName extractMessages) [].

(** The body of the attribute loop of [getElementsMessages]. *)
Definition attributeField (msg : PartialMessage) (attr : Node)
  : PartialMessage :=
  match attr with
  | JsxAttribute name (Some init) =>
      let key := text_of name in
      if isStringLiteral init then copyIfMessageKey msg key (text_of init)
      else
        match init with
        | JsxExpression (Some expression) =>
            if isStringLiteral expression
               || isNoSubstitutionTemplateLiteral expression
            then copyIfMessageKey msg key (text_of expression)
            else msg
        | _ => msg
        end
  | _ => msg
  end.

(** The function mapped over the elements: a message, or [null]. *)
Definition elementMessage (element : Node) : option Message :=
  let msg := foldl attributeField ∅ (attributes_of element) in
  if isValidMessage msg then Some msg else None.

(** [elements.map(...).filter(notNull)]. *)
Definition getElementsMessages (elements : list Node) : list Message :=
  omap elementMessage elements.

Record Options := { tagNames : list string }.

(** [main], from the parsed [sourceFile] on.  When the caller passes no
    options, they are [{ tagNames: [] }]. *)
Definition main (sourceFile : Node) (options : Options) : list Message :=
  let dm :=
    findMethodCallsWithName sourceFile "defineMessages"
      extractMessagesForDefineMessages in
  let fm :=
    findMethodCallsWithName sourceFile "formatMessage"
      extractMessagesForFormatMessage in
  let results :=
    foldl (λ results tagName,
             let elements :=
               findJsxOpeningLikeElementsWithName tagName sourceFile in
             results ++ getElementsMessages elements)
          [] ("FormattedMessage" :: tagNames options) in
  (results ++ dm) ++ fm.

Definition defaultOptions : Options := {| tagNames := [] |}.

(** ** Document order *)

(** [f] over the children of [n], in source order, results appended: the
    same table as [forEachChild], without state and without early exit. *)
Definition bindChildren {A} (f : Node → list A) (n : Node) : list A :=
  match n with
  | SourceFile statements => statements ≫= f
  | Identifier _ | StringLiteral _ | NoSubstitutionTemplateLiteral _
  | LiteralToken _ _ => []
  | VariableDeclaration name type initializer =>
      f name ++ from_option f [] type ++ from_option f [] initializer
  | CallExpression expression typeArguments arguments =>
      f expression ++ (typeArguments ≫= f) ++ (arguments ≫= f)
  | ObjectLiteralExpression properties => properties ≫= f
  | PropertyAssignment name initializer => f name ++ f initializer
  | ShorthandPropertyAssignment name init => f name ++ from_option f [] init
  | SpreadAssignment expression => f expression
  | MethodDeclaration name rest => f name ++ (rest ≫= f)
  | JsxOpeningElement tagName typeArguments attributes
  | JsxSelfClosingElement tagName typeArguments attributes =>
      f tagName ++ (typeArguments ≫= f) ++ (attributes ≫= f)
  | JsxAttribute name initializer => f name ++ from_option f [] initializer
  | JsxSpreadAttribute expression => f expression
  | JsxExpression expression => from_option f [] expression
  | Other _ children => children ≫= f
  end.

(** The children of a node, in source order. *)
Definition children (n : Node) : list Node := bindChildren (λ c, [c]) n.

(** The nodes of the tree under [n] in document order (parent before
    children, children in source order), not entering the nodes that [stop]
    accepts. *)
Fixpoint walk (stop : Node → bool) (n : Node) {struct n} : list Node :=
  n :: (if stop n then [] else bindChildren (walk stop) n).

(** Every node of the tree, in document order. *)
Definition preorder : Node → list Node := walk (λ _, false).

(** *** What each matcher is specified to return *)

(** The opening and self-closing elements named [tagName]. *)
Definition isElementNamed (tagName : string) (n : Node) : bool :=
  match tagName_of n with
  | Some t => isIdentifier t && bool_decide (text_of t = tagName)
  | None => false
  end.

(** Markup-element descriptors for one tag name, in document order. *)
Definition markupDescriptors (sourceFile : Node) (tagName : string)
  : list Message :=
  omap elementMessage (filter (λ n, isElementNamed tagName n) (preorder sourceFile)).

(** The variable declarations that the declaration walk reaches: those not
    inside another variable declaration, in document order. *)
Definition visitedVarDecls (sourceFile : Node) : list Node :=
  filter (λ n, isVariableDeclaration n) (walk isVariableDeclaration sourceFile).

(** The object literals that the scan of [node] reaches: those not inside
    another object literal, in document order. *)
Definition scannedObjects (node : Node) : list Node :=
  filter (λ n, isObjectLiteralExpression n) (walk isObjectLiteralExpression node).

(** The first argument of the call that initialises [decl]. *)
Definition firstArgument (decl : Node) : option Node :=
  match decl with
  | VariableDeclaration _ _ (Some (CallExpression _ _ (arg :: _))) => Some arg
  | _ => None
  end.

(** The descriptors of one declaration: when it is initialised by a call
    of [methodName], those that [extractMessages] reads from the object
    literals scanned under the first argument. *)
Definition declDescriptors (methodName : string)
    (extractMessages : Node → list Message) (decl : Node) : list Message :=
  if isMethodCall decl methodName then
    from_option (λ arg, scannedObjects arg ≫= extractMessages) []
      (firstArgument decl)
  else [].

(** Descriptors of the declarations calling [methodName], in document
    order. *)
Definition callDescriptors (sourceFile : Node) (methodName : string)
    (extractMessages : Node → list Message) : list Message :=
  visitedVarDecls sourceFile ≫= declDescriptors methodName extractMessages.

(** *** Recognised fields and accepted literals *)

(** The three field names of a message. *)
Definition messageKeys : list string := ["defaultMessage"; "description"; "id"].

Definition isMessageKey (key : string) : bool := bool_decide (key ∈ messageKeys).

(** The text of a string literal or a no-substitution template literal. *)
Definition literalText (n : Node) : option string :=
  match n with
  | StringLiteral text | NoSubstitutionTemplateLiteral text => Some text
  | _ => None
  end.

(** The text of a plain string literal only. *)
Definition stringLiteralText (n : Node) : option string :=
  match n with
  | StringLiteral text => Some text
  | _ => None
  end.

(** The name of a property whose key is an identifier or a literal. *)
Definition propertyKey (name : Node) : option string :=
  if isIdentifier name || isLiteralExpression name then Some (text_of name)
  else None.

(** The key and text that a property of a [defineMessages] inner object
    offers: a property assignment with a plain key and a literal value. *)
Definition defineMessagesLiteral (ip : Node) : option (string * string) :=
  match ip with
  | PropertyAssignment name initializer =>
      key ← propertyKey name; text ← literalText initializer; Some (key, text)
  | _ => None
  end.

(** The key and text that a property of a [formatMessage] object offers:
    a property assignment with a plain key and a string literal value. *)
Definition formatMessageLiteral (p : Node) : option (string * string) :=
  match p with
  | PropertyAssignment name initializer =>
      key ← propertyKey name; text ← stringLiteralText initializer;
      Some (key, text)
  | _ => None
  end.

(** The key and text that an attribute offers: a string literal value, or
    an embedded expression that is a literal. *)
Definition attributeLiteral (attr : Node) : option (string * string) :=
  match attr with
  | JsxAttribute name (Some (StringLiteral text)) => Some (text_of name, text)
  | JsxAttribute name (Some (JsxExpression (Some expression))) =>
      text ← literalText expression; Some (text_of name, text)
  | _ => None
  end.

(** The values offered for [key] by a list of properties or attributes, in
    source order. *)
Definition valuesFor (literal : Node → option (string * string))
    (key : string) (items : list Node) : list string :=
  omap (λ item, '(k, v) ← literal item;
                if bool_decide (k = key) then Some v else None) items.

(** The attributes that the element matcher passes over: spread
    attributes, attributes without a value, and attributes whose value is
    an embedded expression other than a literal. *)
Definition isSkippedAttribute (attr : Node) : bool :=
  match attr with
  | JsxSpreadAttribute _ => true
  | JsxAttribute _ None => true
  | JsxAttribute _ (Some (JsxExpression expression)) =>
      match expression ≫= literalText with
      | Some _ => false
      | None => true
      end
  | _ => false
  end.

(** The element without the attributes that are passed over. *)
Definition dropSkippedAttributes (element : Node) : Node :=
  let keep := filter (λ attr, negb (isSkippedAttribute attr)) in
  match element with
  | JsxOpeningElement tagName typeArguments attributes =>
      JsxOpeningElement tagName typeArguments (keep attributes)
  | JsxSelfClosingElement tagName typeArguments attributes =>
      JsxSelfClosingElement tagName typeArguments (keep attributes)
  | _ => element
  end.

(** The partial descriptor read from the properties of one inner object
    of [defineMessages]. *)
Definition innerDescriptor (properties : list Node) : PartialMessage :=
  foldl defineMessagesField ∅ properties.

(** The texts of all string literals and no-substitution template literals
    of the tree. *)
Definition literalTexts (sourceFile : Node) : list string :=
  omap literalText (preorder sourceFile).


(** Writing what an item offers, if anything, through
    [copyIfMessageKey]. *)
Definition copyLiteral (literal : Node → option (string * string))
    (msg : PartialMessage) (item : Node) : PartialMessage :=
  match literal item with
  | Some (key, text) => copyIfMessageKey msg key text
  | None => msg
  end.

(** ** Sample trees *)

(** Shorthands for the trees of small source texts.  Statements and
    function bodies are [Other] nodes: [const x = e;] is a
    [VariableStatement] holding a [VariableDeclarationList]. *)
Definition stringProperty (key text : string) : Node :=
  PropertyAssignment (Identifier key) (StringLiteral text).

Definition callOf (callee : string) (arguments : list Node) : Node :=
  CallExpression (Identifier callee) [] arguments.

Definition constDeclaration (name : string) (init : Node) : Node :=
  VariableDeclaration (Identifier name) None (Some init).

Definition variableStatement (declarations : list Node) : Node :=
  Other "VariableStatement" [Other "VariableDeclarationList" declarations].

Definition expressionStatement (e : Node) : Node :=
  Other "ExpressionStatement" [e].

Definition stringAttribute (key text : string) : Node :=
  JsxAttribute (Identifier key) (Some (StringLiteral text)).

(** [const m = defineMessages({ a: { id: "x", defaultMessage: "y" } })] *)
Definition bulkDeclaration : Node :=
  constDeclaration "m"
    (callOf "defineMessages"
       [ObjectLiteralExpression
          [PropertyAssignment (Identifier "a")
             (ObjectLiteralExpression
                [stringProperty "id" "x"; stringProperty "defaultMessage" "y"])]]).

(** The declaration alone in a file. *)
Definition bulkDeclarationFile : Node :=
  SourceFile [variableStatement [bulkDeclaration]].

(** The same declaration in the body of a function that initialises a
    variable:
    [const f = () => { const m = defineMessages({ a: {...} }); };] *)
Definition nestedDeclarationFile : Node :=
  SourceFile
    [variableStatement
       [constDeclaration "f"
          (Other "ArrowFunction"
             [Other "Block" [variableStatement [bulkDeclaration]]])]].

(** [<FormattedMessage id="" defaultMessage="" />;] *)
Definition emptyFieldsFile : Node :=
  SourceFile
    [expressionStatement
       (JsxSelfClosingElement (Identifier "FormattedMessage") []
          [stringAttribute "id" ""; stringAttribute "defaultMessage" ""])].

(** [formatMessage({ id: "c", defaultMessage: "d" })] *)
Definition resolutionCall : Node :=
  callOf "formatMessage"
    [ObjectLiteralExpression
       [stringProperty "id" "c"; stringProperty "defaultMessage" "d"]].

(** [const t = formatMessage(formatMessage({ id: "c", defaultMessage: "d" }));]
    the inner call is an argument of the outer one. *)
Definition nestedCallFile : Node :=
  SourceFile
    [variableStatement
       [constDeclaration "t" (callOf "formatMessage" [resolutionCall])]].

(** [console.log(formatMessage({ id: "c", defaultMessage: "d" }));] *)
Definition loggedCallFile : Node :=
  SourceFile
    [expressionStatement
       (CallExpression
          (Other "PropertyAccessExpression"
             [Identifier "console"; Identifier "log"])
          [] [resolutionCall])].

(** An element with a spread attribute, a literal [id], a template
    [defaultMessage], a dynamic [values] and a bare [disabled]:
    [<Msg {...props} id="a.msg" defaultMessage={`Message`} values={vals} disabled />] *)
Definition sampleElement : Node :=
  JsxSelfClosingElement (Identifier "Msg") []
    [JsxSpreadAttribute (Identifier "props");
     stringAttribute "id" "a.msg";
     JsxAttribute (Identifier "defaultMessage")
       (Some (JsxExpression (Some (NoSubstitutionTemplateLiteral "Message"))));
     JsxAttribute (Identifier "values")
       (Some (JsxExpression (Some (Identifier "vals"))));
     JsxAttribute (Identifier "disabled") None].

(** A file with the three patterns:
[[
const messages = defineMessages({
  hello: { id: "a.hello", defaultMessage: `Hello`, values: "v" },
  broken: { id: "a.broken" } });
const label = formatMessage(
  { id: "a.label", defaultMessage: "Label", description: "d" });
console.log(formatMessage({ id: "c", defaultMessage: "d" }));
<Msg {...props} id="a.msg" defaultMessage={`Message`} values={vals} disabled />;
<FormattedMessage id="a.old" id="a.fm" defaultMessage="FM" />;
]] *)
Definition sampleFile : Node :=
  SourceFile
    [variableStatement
       [constDeclaration "messages"
          (callOf "defineMessages"
             [ObjectLiteralExpression
                [PropertyAssignment (Identifier "hello")
                   (ObjectLiteralExpression
                      [stringProperty "id" "a.hello";
                       PropertyAssignment (Identifier "defaultMessage")
                         (NoSubstitutionTemplateLiteral "Hello");
                       stringProperty "values" "v"]);
                 PropertyAssignment (Identifier "broken")
                   (ObjectLiteralExpression [stringProperty "id" "a.broken"])]])];
     variableStatement
       [constDeclaration "label"
          (callOf "formatMessage"
             [ObjectLiteralExpression
                [stringProperty "id" "a.label";
                 stringProperty "defaultMessage" "Label";
                 stringProperty "description" "d"]])];
     expressionStatement
       (CallExpression
          (Other "PropertyAccessExpression"
             [Identifier "console"; Identifier "log"])
          [] [resolutionCall]);
     expressionStatement sampleElement;
     expressionStatement
       (JsxSelfClosingElement (Identifier "FormattedMessage") []
          [stringAttribute "id" "a.old"; stringAttribute "id" "a.fm";
           stringAttribute "defaultMessage" "FM"])].

(** [const m = defineMessages({ a: {...} });]
    [console.log(formatMessage({ id: "c", defaultMessage: "d" }));] *)
Definition bulkAndLoggedFile : Node :=
  SourceFile
    [variableStatement [bulkDeclaration];
     expressionStatement
       (CallExpression
          (Other "PropertyAccessExpression"
             [Identifier "console"; Identifier "log"])
          [] [resolutionCall])].

(** The nested call file with the argument of the inner call taken away:
    [const t = formatMessage(formatMessage());] *)
Definition nestedEmptyCallFile : Node :=
  SourceFile
    [variableStatement
       [constDeclaration "t"
          (callOf "formatMessage" [callOf "formatMessage" []])]].


(** An object literal whose values are templates:
    [{ id: `t.id`, defaultMessage: `T` }] *)
Definition templateObject : Node :=
  ObjectLiteralExpression
    [PropertyAssignment (Identifier "id") (NoSubstitutionTemplateLiteral "t.id");
     PropertyAssignment (Identifier "defaultMessage")
       (NoSubstitutionTemplateLiteral "T")].


Definition sampleOptions : Options := {| tagNames := ["Msg"] |}.

(** A descriptor read from the tree under [n]: it holds the two mandatory
    fields, its keys are recognised field names, and its values are texts
    of literals of the tree. *)
Definition readFrom (n : Node) (m : Message) : Prop :=
  isValidMessage m = true
  ∧ ∀ key value, m !! key = Some value →
      isMessageKey key = true ∧ value ∈ literalTexts n.

(** ** Further definitions *)

(** A declaration initialised by a call whose callee is a plain identifier
    and that has at least one argument. *)
Definition isIdentifierCallWithArgument (decl : Node) : bool :=
  match decl with
  | VariableDeclaration _ _ (Some (CallExpression (Identifier _) _ (_ :: _))) =>
      true
  | _ => false
  end.

(** A property assignment whose value is an object literal. *)
Definition hasObjectValue (p : Node) : bool :=
  match p with
  | PropertyAssignment _ (ObjectLiteralExpression _) => true
  | _ => false
  end.

(** A property assignment whose value is a string literal. *)
Definition hasStringValue (p : Node) : bool :=
  match p with
  | PropertyAssignment _ (StringLiteral _) => true
  | _ => false
  end.

(** [{ id: "c", defaultMessage: "d" }] *)
Definition flatObject : Node :=
  ObjectLiteralExpression
    [stringProperty "id" "c"; stringProperty "defaultMessage" "d"].

(** [{ a: { id: "c", defaultMessage: "d" } }] *)
Definition keyedObject : Node :=
  ObjectLiteralExpression [PropertyAssignment (Identifier "a") flatObject].

(** [const a = intl.formatMessage({ id: "c", defaultMessage: "d" });]
    [const b = formatMessage();]
    [let c;] *)
Definition intlCallFile : Node :=
  SourceFile
    [variableStatement
       [constDeclaration "a"
          (CallExpression
             (Other "PropertyAccessExpression"
                [Identifier "intl"; Identifier "formatMessage"])
             [] [flatObject])];
     variableStatement [constDeclaration "b" (callOf "formatMessage" [])];
     variableStatement [VariableDeclaration (Identifier "c") None None]].

(** ** The runtime's limits *)

(** The definitions above are the program on a runtime without limits.  A
    JavaScript engine raises [RangeError] when calls nest deeper than its
    stack allows, and when a spread call [array.push(...items)] passes more
    arguments than it allows.  The program has three recursive walks
    ([find], [forAllVarDecls], [findJsxElement]) and two spread calls (in
    [find] and in [main]); it catches nothing.  Both limits are the
    engine's, not the program's, and are parameters below: [stack] is the
    number of levels of a walk that may still nest, a level being one call
    of the walk's callback together with the calls of [forEachChild] and of
    the helpers that it goes through; [maxArguments] is the greatest
    number of arguments of a call.  [None] is a raised [RangeError].  The
    children are visited in the order of [children], which is the order of
    [forEachChild]. *)



Section Limits.
Variable maxArguments : nat.











End Limits.





(** * Properties *)

(** ** Induction over the tree, by children *)

Lemma bind_unit {A} (l : list A) : l ≫= (λ c, [c]) = l.
Proof. induction l as [|x l IH]; csimpl; [reflexivity | by f_equal]. Qed.

Lemma bindChildren_children {A} (f : Node → list A) (n : Node) :
  bindChildren f n = children n ≫= f.
Proof.
  unfold children.
  destruct n as [sts| | | | |nm [ty|] [init|]|e tas args|ps|nm init|nm [init|]
                |e|nm rest|tg tas attrs|tg tas attrs|nm [init|]|e|[e|]|k cs];
    csimpl; rewrite ?bind_unit, ?bind_app, ?app_nil_r; csimpl;
    rewrite ?app_nil_r; try reflexivity.
Qed.

(** Induction on the tree: a property that holds of a node whenever it
    holds of its children holds of every node. *)
Lemma Node_children_ind (P : Node → Prop) :
  (∀ n, Forall P (children n) → P n) → ∀ n, P n.
Proof.
  intros step. fix IH 1. intros n. apply step.
  pose (many := fix many (l : list Node) : Forall P l :=
          match l with
          | [] => Forall_nil_2 P
          | c :: l' => Forall_cons_2 P c l' (IH c) (many l')
          end).
  pose (maybe := λ o : option Node,
          match o return Forall P (from_option (λ c, [c]) [] o) with
          | Some c => Forall_cons_2 P c [] (IH c) (Forall_nil_2 P)
          | None => Forall_nil_2 P
          end).
  unfold children.
  destruct n as [sts| | | | |nm ty init|e tas args|ps|nm init|nm init
                |e|nm rest|tg tas attrs|tg tas attrs|nm init|e|e|k cs];
    csimpl; rewrite ?bind_unit;
    repeat first
      [ apply Forall_nil_2
      | apply Forall_cons_2; [apply IH|]
      | apply Forall_app_2
      | apply maybe
      | apply many ].
Qed.

(** ** [forEachChild] visits the children in source order *)

Section Visits.
Context {St R : Type}.
Implicit Types (cb : Visitor St R) (s : St).

Lemma visitNodes_cons cb c cs s :
  visitNodes cb (c :: cs) s = (cb c <|> visitNodes cb cs) s.
Proof. reflexivity. Qed.

Lemma visitNodes_app cb cs1 cs2 s :
  visitNodes cb (cs1 ++ cs2) s = (visitNodes cb cs1 <|> visitNodes cb cs2) s.
Proof.
  revert s. induction cs1 as [|c cs1 IH]; intros s; [reflexivity|].
  simpl. unfold orElse. simpl. destruct (cb c s) as [[r|] s']; [reflexivity|].
  rewrite IH. reflexivity.
Qed.

Lemma visitNode_visitNodes cb o s :
  visitNode cb o s = visitNodes cb (from_option (λ c, [c]) [] o) s.
Proof. destruct o as [c|]; simpl; [|reflexivity]. by destruct (cb c s) as [[r|] s']. Qed.

Lemma visitNodes_one cb c s : cb c s = visitNodes cb [c] s.
Proof. simpl. by destruct (cb c s) as [[r|] s']. Qed.

Lemma orElse_ext (a a' b b' : St → option R * St) s :
  (∀ s, a s = a' s) → (∀ s, b s = b' s) → (a <|> b) s = (a' <|> b') s.
Proof. intros Ha Hb. unfold orElse. rewrite Ha. destruct (a' s) as [[r|] s']; auto. Qed.

Lemma forEachChild_children n cb s :
  forEachChild n cb s = visitNodes cb (children n) s.
Proof.
  unfold children.
  destruct n as [sts| | | | |nm ty init|e tas args|ps|nm init|nm init
                |e|nm rest|tg tas attrs|tg tas attrs|nm init|e|e|k cs];
    csimpl; rewrite ?bind_unit; try reflexivity;
    rewrite ?visitNodes_cons, ?visitNodes_app;
    repeat (apply orElse_ext; intros);
    rewrite ?visitNodes_app;
    repeat (apply orElse_ext; intros);
    try reflexivity;
    try apply visitNode_visitNodes; try apply visitNodes_one.
Qed.

(** A callback that never returns a truthy value lets [visitNodes] run
    through the whole list. *)
Lemma visitNodes_quiet cb (f : Node → St → St) cs s :
  Forall (λ c, ∀ s, cb c s = (None, f c s)) cs →
  visitNodes cb cs s = (None, foldl (λ s c, f c s) s cs).
Proof.
  intros H. revert s. induction H as [|c cs Hc _ IH]; intros s; [reflexivity|].
  simpl. rewrite Hc. apply IH.
Qed.
End Visits.

(** Pushing the results of [F] for each element of a list, in order. *)
Lemma foldl_append {A B} (F : A → list B) (l : list A) (acc : list B) :
  foldl (λ acc x, acc ++ F x) acc l = acc ++ (l ≫= F).
Proof.
  revert acc. induction l as [|x l IH]; intros acc; csimpl.
  - by rewrite app_nil_r.
  - by rewrite IH, app_assoc.
Qed.

Lemma foldl_bind {A B St} (step : St → B → St) (F : A → list B) (l : list A) s :
  foldl (λ s x, foldl step s (F x)) s l = foldl step s (l ≫= F).
Proof.
  revert s. induction l as [|x l IH]; intros s; csimpl; [reflexivity|].
  by rewrite foldl_app, IH.
Qed.

Lemma bind_assoc {A B C} (F : A → list B) (G : B → list C) (l : list A) :
  (l ≫= F) ≫= G = l ≫= (λ x, F x ≫= G).
Proof.
  induction l as [|x l IH]; csimpl; [reflexivity|].
  by rewrite bind_app, IH.
Qed.

Lemma filter_cons_bool {A} (P : A → bool) (x : A) (l : list A) :
  filter (λ y, P y) (x :: l)
  = if P x then x :: filter (λ y, P y) l else filter (λ y, P y) l.
Proof.
  rewrite filter_cons.
  destruct (decide (P x)) as [H|H]; destruct (P x); simpl in *;
    first [reflexivity | contradiction | exfalso; apply H; exact I].
Qed.

Lemma filter_bind {A B} (P : B → bool) (F : A → list B) (l : list A) :
  filter (λ x, P x) (l ≫= F) = l ≫= (λ x, filter (λ y, P y) (F x)).
Proof.
  induction l as [|x l IH]; csimpl; [reflexivity|].
  by rewrite filter_app, IH.
Qed.

(** ** The three walks, in terms of document order *)

Lemma walk_unfold stop n :
  walk stop n = n :: (if stop n then [] else children n ≫= walk stop).
Proof. rewrite <- bindChildren_children. by destruct n. Qed.

Lemma bind_sublist {A B} (F G : A → list B) (l : list A) :
  Forall (λ x, F x `sublist_of` G x) l → (l ≫= F) `sublist_of` (l ≫= G).
Proof.
  induction 1 as [|x l Hx _ IH]; csimpl; [constructor|].
  by apply sublist_app.
Qed.

(** A walk that stops early keeps the document order of the nodes it
    reaches. *)
Lemma walk_sublist stop n : walk stop n `sublist_of` preorder n.
Proof.
  induction n as [n IH] using Node_children_ind.
  unfold preorder. rewrite !walk_unfold. apply sublist_skip.
  destruct (stop n); [apply sublist_nil_l | by apply bind_sublist].
Qed.

Lemma visitedVarDecls_sublist sourceFile :
  visitedVarDecls sourceFile `sublist_of` preorder sourceFile.
Proof.
  unfold visitedVarDecls.
  etrans; [apply sublist_filter; apply _ | apply walk_sublist].
Qed.

Lemma scannedObjects_sublist node :
  scannedObjects node `sublist_of` preorder node.
Proof.
  unfold scannedObjects.
  etrans; [apply sublist_filter; apply _ | apply walk_sublist].
Qed.

(** [find] never returns a truthy value, and pushes what [extractMessages]
    reads from each object literal it reaches. *)
Lemma find_spec extractMessages n res :
  find extractMessages n res
  = (None, res ++ (scannedObjects n ≫= extractMessages)).
Proof.
  revert res. induction n as [n IH] using Node_children_ind. intros res.
  unfold scannedObjects. rewrite walk_unfold.
  destruct (isObjectLiteralExpression n) eqn:Hn.
  - rewrite filter_cons_bool, Hn. csimpl. rewrite app_nil_r.
    destruct n; try discriminate Hn. reflexivity.
  - rewrite filter_cons_bool, Hn. simpl.
    replace (find extractMessages n res)
      with (forEachChild n (find extractMessages) res)
      by (destruct n; try discriminate Hn; reflexivity).
    rewrite forEachChild_children.
    rewrite (visitNodes_quiet _
               (λ c s, s ++ (scannedObjects c ≫= extractMessages)))
      by exact IH.
    rewrite (foldl_append (λ c, scannedObjects c ≫= extractMessages)).
    rewrite filter_bind, bind_assoc. reflexivity.
Qed.

Lemma extractMessagesForNode_spec extractMessages node :
  extractMessagesForNode extractMessages node
  = scannedObjects node ≫= extractMessages.
Proof. unfold extractMessagesForNode. by rewrite find_spec. Qed.

(** [forAllVarDecls] runs [cb] on the declarations it reaches, in document
    order. *)
Lemma forAllVarDecls_spec {St} (cb : Node → St → St) n (s : St) :
  forAllVarDecls n cb s = foldl (λ s d, cb d s) s (visitedVarDecls n).
Proof.
  revert s. induction n as [n IH] using Node_children_ind. intros s.
  unfold visitedVarDecls. rewrite walk_unfold.
  destruct (isVariableDeclaration n) eqn:Hn.
  - rewrite filter_cons_bool, Hn. simpl.
    destruct n; try discriminate Hn. reflexivity.
  - rewrite filter_cons_bool, Hn. simpl.
    replace (forAllVarDecls n cb s)
      with (snd (forEachChild (R := Empty_set) n
                   (λ c s', (None, forAllVarDecls c cb s')) s))
      by (destruct n; try discriminate Hn; reflexivity).
    rewrite forEachChild_children.
    rewrite (visitNodes_quiet _ (λ c s, forAllVarDecls c cb s))
      by (apply Forall_forall; reflexivity).
    simpl. rewrite filter_bind, <- foldl_bind.
    clear Hn. revert s. induction IH as [|c cs Hc _ IHcs]; intros s; simpl.
    + reflexivity.
    + rewrite Hc. apply IHcs.
Qed.

(** [findJsxElement] never returns a truthy value, and pushes every
    element named [tagName], in document order. *)
Lemma findJsxElement_spec tagName n messages :
  findJsxElement tagName n messages
  = (None, messages ++ filter (λ e, isElementNamed tagName e) (preorder n)).
Proof.
  revert messages. induction n as [n IH] using Node_children_ind.
  intros messages. unfold preorder. rewrite walk_unfold. simpl.
  replace (findJsxElement tagName n messages)
    with (forEachChild n (findJsxElement tagName)
            (if isElementNamed tagName n then push n messages else messages)).
  2:{ unfold isElementNamed.
      destruct n as [| | | | | | | | | | | |tg ? ?|tg ? ?| | | |];
        try reflexivity; simpl; destruct (isIdentifier tg); simpl;
        try reflexivity; destruct (bool_decide _); reflexivity. }
  rewrite forEachChild_children.
  rewrite (visitNodes_quiet _
             (λ c s, s ++ filter (λ e, isElementNamed tagName e) (preorder c)))
    by exact IH.
  rewrite (foldl_append
             (λ c, filter (λ e, isElementNamed tagName e) (preorder c))).
  rewrite filter_cons_bool, filter_bind.
  destruct (isElementNamed tagName n); unfold push; simpl;
    [by rewrite <- app_assoc | reflexivity].
Qed.

Lemma findJsxOpeningLikeElementsWithName_spec tagName node :
  findJsxOpeningLikeElementsWithName tagName node
  = filter (λ e, isElementNamed tagName e) (preorder node).
Proof.
  unfold findJsxOpeningLikeElementsWithName. by rewrite findJsxElement_spec.
Qed.

Lemma collectMethodCall_spec methodName extractMessages decl messages :
  collectMethodCall methodName extractMessages decl messages
  = messages ++ declDescriptors methodName extractMessages decl.
Proof.
  unfold collectMethodCall, declDescriptors.
  destruct (isMethodCall decl methodName); [|by rewrite app_nil_r].
  destruct decl as [| | | | |nm ty [[| | | | | |e tas [|arg args]| | | | | | | | | | |]|]
                   | | | | | | | | | | | |];
    simpl; rewrite ?app_nil_r; try reflexivity.
  by rewrite extractMessagesForNode_spec.
Qed.

Lemma findMethodCallsWithName_spec sourceFile methodName extractMessages :
  findMethodCallsWithName sourceFile methodName extractMessages
  = callDescriptors sourceFile methodName extractMessages.
Proof.
  unfold findMethodCallsWithName, callDescriptors.
  rewrite forAllVarDecls_spec.
  change (visitedVarDecls sourceFile
          ≫= declDescriptors methodName extractMessages)
    with ([] ++ (visitedVarDecls sourceFile
                   ≫= declDescriptors methodName extractMessages)).
  rewrite <- (foldl_append (declDescriptors methodName extractMessages)).
  generalize (@nil Message).
  induction (visitedVarDecls sourceFile) as [|d ds IH]; intros acc; simpl;
    [reflexivity|].
  by rewrite collectMethodCall_spec, IH.
Qed.

(** ** The order of the output *)

(** The loop over the tag names appends one batch of descriptors per tag
    name, in the order of the list. *)
Lemma main_parts sourceFile options :
  main sourceFile options
  = (("FormattedMessage" :: tagNames options)
       ≫= λ tagName,
            getElementsMessages
              (findJsxOpeningLikeElementsWithName tagName sourceFile))
    ++ findMethodCallsWithName sourceFile "defineMessages"
         extractMessagesForDefineMessages
    ++ findMethodCallsWithName sourceFile "formatMessage"
         extractMessagesForFormatMessage.
Proof.
  unfold main. rewrite <- app_assoc. f_equal.
  rewrite (foldl_append
             (λ tagName,
                getElementsMessages
                  (findJsxOpeningLikeElementsWithName tagName sourceFile))).
  reflexivity.
Qed.

Lemma getElementsMessages_markup sourceFile tagName :
  getElementsMessages (findJsxOpeningLikeElementsWithName tagName sourceFile)
  = markupDescriptors sourceFile tagName.
Proof. by rewrite findJsxOpeningLikeElementsWithName_spec. Qed.

(** C1.  The output of [main] is the concatenation of: the markup-element
    descriptors, tag name by tag name with the built-in ["FormattedMessage"]
    first and the caller's tag names after it in the order supplied, each
    group in document order; then the [defineMessages] descriptors in
    document order; then the [formatMessage] descriptors in document
    order.  Document order is the pre-order of the tree: the elements are
    filtered from it, and the declarations visited and the object literals
    scanned under an argument are sublists of it. *)
Theorem main_output_order (sourceFile : Node) (options : Options) :
  main sourceFile options
  = (("FormattedMessage" :: tagNames options) ≫= markupDescriptors sourceFile)
    ++ callDescriptors sourceFile "defineMessages"
         extractMessagesForDefineMessages
    ++ callDescriptors sourceFile "formatMessage"
         extractMessagesForFormatMessage
  ∧ visitedVarDecls sourceFile `sublist_of` preorder sourceFile
  ∧ ∀ argument, scannedObjects argument `sublist_of` preorder argument.
Proof.
  split; [|split].
  - rewrite main_parts, !findMethodCallsWithName_spec. f_equal.
    apply list_bind_ext; [|reflexivity].
    intros tagName. apply getElementsMessages_markup.
  - apply visitedVarDecls_sublist.
  - apply scannedObjects_sublist.
Qed.

(** ** Fields of a partial descriptor *)

Lemma isMessageKey_true key :
  isMessageKey key = true ↔
  key = "defaultMessage" ∨ key = "description" ∨ key = "id".
Proof.
  unfold isMessageKey, messageKeys. rewrite bool_decide_eq_true.
  rewrite !elem_of_cons, elem_of_nil. tauto.
Qed.

Lemma copyIfMessageKey_known target key value :
  isMessageKey key = true → copyIfMessageKey target key value = <[key:=value]> target.
Proof.
  intros [->| [->| ->]]%isMessageKey_true; reflexivity.
Qed.

Lemma copyIfMessageKey_unknown target key value :
  isMessageKey key = false → copyIfMessageKey target key value = target.
Proof.
  intros H. unfold copyIfMessageKey.
  repeat case_bool_decide; subst; try discriminate H; reflexivity.
Qed.

Lemma defineMessagesField_literal msg ip :
  defineMessagesField msg ip = copyLiteral defineMessagesLiteral msg ip.
Proof.
  unfold defineMessagesField, copyLiteral, defineMessagesLiteral, propertyKey.
  destruct ip as [| | | | | | | |nm init| | | | | | | | |]; simpl; try reflexivity;
    try (destruct (isIdentifier _ || isLiteralExpression _); reflexivity).
  destruct (isIdentifier nm || isLiteralExpression nm); simpl; [|reflexivity].
  destruct init; reflexivity.
Qed.

Lemma formatMessageProperty_literal msg p :
  formatMessageProperty msg p = copyLiteral formatMessageLiteral msg p.
Proof.
  unfold formatMessageProperty, copyLiteral, formatMessageLiteral, propertyKey.
  destruct p as [| | | | | | | |nm init| | | | | | | | |]; simpl; try reflexivity.
  destruct (isIdentifier nm || isLiteralExpression nm); simpl; [|reflexivity].
  destruct init; reflexivity.
Qed.

Lemma attributeField_literal msg attr :
  attributeField msg attr = copyLiteral attributeLiteral msg attr.
Proof.
  unfold attributeField, copyLiteral, attributeLiteral.
  destruct attr as [| | | | | | | | | | | | | |nm [init|]| | |]; simpl; try reflexivity.
  destruct init as [| | | | | | | | | | | | | | | |[e|]|]; simpl; try reflexivity.
  destruct e; reflexivity.
Qed.

Lemma foldl_ext_step {A B} (f g : A → B → A) (l : list B) (a : A) :
  (∀ a b, f a b = g a b) → foldl f a l = foldl g a l.
Proof.
  intros H. revert a. induction l as [|b l IH]; intros a; simpl; [reflexivity|].
  by rewrite H, IH.
Qed.

Section CopyLiteral.
Variable literal : Node → option (string * string).

(** After the items are written in order, a recognised key holds the
    last value offered for it, or what it held before when none is. *)
Lemma foldl_copyLiteral_lookup key items msg :
  isMessageKey key = true →
  foldl (copyLiteral literal) msg items !! key
  = match last (valuesFor literal key items) with
    | Some v => Some v
    | None => msg !! key
    end.
Proof.
  intros Hkey. revert msg.
  induction items as [|item items IH]; intros msg; [reflexivity|].
  simpl. rewrite IH. unfold valuesFor. csimpl. unfold copyLiteral.
  destruct (literal item) as [[k v]|]; simpl; [|reflexivity].
  case_bool_decide as Hk; simpl.
  - subst k. rewrite copyIfMessageKey_known by done.
    rewrite last_cons.
    destruct (last _); [reflexivity | by rewrite lookup_insert_eq].
  - destruct (last _); [reflexivity|].
    destruct (isMessageKey k) eqn:Hmk.
    + rewrite copyIfMessageKey_known by done. by rewrite lookup_insert_ne.
    + by rewrite copyIfMessageKey_unknown.
Qed.

(** No other key is ever written. *)
Lemma foldl_copyLiteral_unknown key items msg :
  isMessageKey key = false →
  foldl (copyLiteral literal) msg items !! key = msg !! key.
Proof.
  intros Hkey. revert msg.
  induction items as [|item items IH]; intros msg; [reflexivity|].
  simpl. rewrite IH. unfold copyLiteral.
  destruct (literal item) as [[k v]|]; [|reflexivity].
  destruct (isMessageKey k) eqn:Hmk.
  - rewrite copyIfMessageKey_known by done.
    apply lookup_insert_ne. intros ->. congruence.
  - by rewrite copyIfMessageKey_unknown.
Qed.

(** An item that offers nothing, or offers an unrecognised key, can be
    taken out of the list. *)
Lemma foldl_copyLiteral_drop (keep : Node → bool) items msg :
  (∀ item, keep item = false →
     match literal item with
     | Some (k, _) => isMessageKey k = false
     | None => True
     end) →
  foldl (copyLiteral literal) msg (filter (λ item, keep item) items)
  = foldl (copyLiteral literal) msg items.
Proof.
  intros Hdrop. revert msg.
  induction items as [|item items IH]; intros msg; [reflexivity|].
  rewrite filter_cons_bool. destruct (keep item) eqn:Hk; simpl.
  - apply IH.
  - rewrite IH. f_equal. unfold copyLiteral. specialize (Hdrop item Hk).
    destruct (literal item) as [[k v]|]; [|reflexivity].
    by rewrite copyIfMessageKey_unknown.
Qed.
End CopyLiteral.

(** ** The bulk-map extractor *)

Lemma isValidMessage_true obj :
  isValidMessage obj = true ↔
  is_Some (obj !! "id") ∧ is_Some (obj !! "defaultMessage").
Proof.
  unfold isValidMessage.
  rewrite andb_true_iff, !bool_decide_eq_true. reflexivity.
Qed.

Lemma isValidMessage_false obj :
  isValidMessage obj = false ↔
  ¬ (is_Some (obj !! "id") ∧ is_Some (obj !! "defaultMessage")).
Proof.
  rewrite <- isValidMessage_true. destruct (isValidMessage obj); split; auto.
  intros H. exfalso. by apply H.
Qed.

Lemma defineMessagesProperty_push messages p :
  defineMessagesProperty messages p = messages ++ defineMessagesProperty [] p.
Proof.
  destruct p as [| | | | | | | |nm init| | | | | | | | |];
    simpl; rewrite ?app_nil_r; try reflexivity.
  destruct init; simpl; rewrite ?app_nil_r; try reflexivity.
  destruct (isValidMessage _); simpl; by rewrite ?app_nil_r.
Qed.

Lemma foldl_defineMessagesProperty properties messages :
  foldl defineMessagesProperty messages properties
  = messages ++ (properties ≫= defineMessagesProperty []).
Proof.
  revert messages. induction properties as [|p ps IH]; intros messages; csimpl.
  - by rewrite app_nil_r.
  - by rewrite IH, (defineMessagesProperty_push messages p), app_assoc.
Qed.

Lemma extractMessagesForDefineMessages_bind properties :
  extractMessagesForDefineMessages (ObjectLiteralExpression properties)
  = properties ≫= defineMessagesProperty [].
Proof. apply foldl_defineMessagesProperty. Qed.

(** C2.  In the object literal handed to [defineMessages], a property whose
    value is an object literal yields exactly one descriptor, the partial
    descriptor read from that inner object, when it holds both [id] and
    [defaultMessage], and none otherwise; what the properties before and
    after it yield is what they yield on their own, and the descriptors
    follow the order of the properties. *)
Theorem defineMessages_property_yield
    (before after inner : list Node) (name : Node) :
  let p := PropertyAssignment name (ObjectLiteralExpression inner) in
  let msg := innerDescriptor inner in
  let siblings l := extractMessagesForDefineMessages (ObjectLiteralExpression l) in
  (is_Some (msg !! "id") ∧ is_Some (msg !! "defaultMessage") →
     siblings (before ++ p :: after) = siblings before ++ [msg] ++ siblings after)
  ∧ (¬ (is_Some (msg !! "id") ∧ is_Some (msg !! "defaultMessage")) →
     siblings (before ++ p :: after) = siblings before ++ siblings after).
Proof.
  intros p msg siblings. unfold siblings.
  rewrite !extractMessagesForDefineMessages_bind, bind_app, bind_cons.
  subst p. simpl. fold (innerDescriptor inner). fold msg.
  split; intros H.
  - apply (proj2 (isValidMessage_true msg)) in H. by rewrite H.
  - apply (proj2 (isValidMessage_false msg)) in H. by rewrite H.
Qed.

(** ** The markup-element extractor *)

(** The fields of the partial descriptor of an attribute list. *)
Lemma attribute_fields attributes key :
  foldl attributeField ∅ attributes !! key
  = if isMessageKey key
    then last (valuesFor attributeLiteral key attributes)
    else None.
Proof.
  rewrite (foldl_ext_step _ (copyLiteral attributeLiteral))
    by apply attributeField_literal.
  destruct (isMessageKey key) eqn:Hkey.
  - rewrite foldl_copyLiteral_lookup by done. by destruct (last _).
  - by rewrite foldl_copyLiteral_unknown.
Qed.

Lemma skipped_attribute_offers_nothing attr :
  isSkippedAttribute attr = true → attributeLiteral attr = None.
Proof.
  destruct attr as [| | | | | | | | | | | | | |nm [init|]| | |];
    simpl; try discriminate; try reflexivity.
  destruct init as [| | | | | | | | | | | | | | | |[e|]|];
    simpl; try discriminate; try reflexivity.
  destruct (literalText e); [discriminate | reflexivity].
Qed.

Lemma dropSkippedAttributes_fields element :
  foldl attributeField ∅ (attributes_of (dropSkippedAttributes element))
  = foldl attributeField ∅ (attributes_of element).
Proof.
  assert (∀ attrs,
    foldl attributeField ∅ (filter (λ a, negb (isSkippedAttribute a)) attrs)
    = foldl attributeField ∅ attrs) as Hfilter.
  { intros attrs.
    rewrite !(foldl_ext_step attributeField (copyLiteral attributeLiteral))
      by apply attributeField_literal.
    apply (foldl_copyLiteral_drop _ (λ a, negb (isSkippedAttribute a))).
    intros a Ha. apply negb_false_iff in Ha.
    by rewrite skipped_attribute_offers_nothing. }
  destruct element; try reflexivity; apply Hfilter.
Qed.

(** C5.  Spread attributes, attributes without a value and attributes
    whose embedded expression is not a string literal or a no-substitution
    template are passed over without invalidating the element: the element
    gives the same result with and without them, and an element that
    offers a literal [id] and a literal [defaultMessage] yields exactly one
    descriptor, whose fields are the recognised keys with the literal
    values offered for them, and nothing else. *)
Theorem skipped_attributes_keep_element (element : Node) :
  valuesFor attributeLiteral "id" (attributes_of element) ≠ [] →
  valuesFor attributeLiteral "defaultMessage" (attributes_of element) ≠ [] →
  elementMessage (dropSkippedAttributes element) = elementMessage element
  ∧ ∃ msg,
      getElementsMessages [element] = [msg]
      ∧ ∀ key,
          msg !! key
          = if isMessageKey key
            then last (valuesFor attributeLiteral key (attributes_of element))
            else None.
Proof.
  intros Hid Hdm. split.
  - unfold elementMessage. by rewrite dropSkippedAttributes_fields.
  - exists (foldl attributeField ∅ (attributes_of element)).
    split; [|apply attribute_fields].
    unfold getElementsMessages, elementMessage. csimpl.
    assert (isValidMessage (foldl attributeField ∅ (attributes_of element)) = true)
      as ->; [|reflexivity].
    apply isValidMessage_true. rewrite !attribute_fields. simpl.
    split; apply last_is_Some; assumption.
Qed.

(** The theorem at the sample element. *)
Lemma skipped_attributes_keep_element_witness :
  valuesFor attributeLiteral "id" (attributes_of sampleElement) ≠ []
  ∧ valuesFor attributeLiteral "defaultMessage" (attributes_of sampleElement) ≠ []
  ∧ elementMessage (dropSkippedAttributes sampleElement)
    = elementMessage sampleElement
  ∧ ∃ msg, getElementsMessages [sampleElement] = [msg].
Proof.
  assert (valuesFor attributeLiteral "id" (attributes_of sampleElement) ≠ [])
    as Hid by discriminate.
  assert (valuesFor attributeLiteral "defaultMessage"
            (attributes_of sampleElement) ≠ []) as Hdm by discriminate.
  destruct (skipped_attributes_keep_element sampleElement Hid Hdm)
    as (Hsame & msg & Hone & _).
  split; [exact Hid|]. split; [exact Hdm|]. split; [exact Hsame|].
  exists msg. exact Hone.
Defined.

Example sampleElement_descriptor :
  getElementsMessages [sampleElement]
  = [ {[ "id" := "a.msg"; "defaultMessage" := "Message" ]} ].
Proof. reflexivity. Qed.

(** ** The extractor on the sample trees *)

Example main_sampleFile :
  main sampleFile sampleOptions
  = [ {[ "id" := "a.fm"; "defaultMessage" := "FM" ]};
      {[ "id" := "a.msg"; "defaultMessage" := "Message" ]};
      {[ "id" := "a.hello"; "defaultMessage" := "Hello" ]};
      {[ "id" := "a.label"; "defaultMessage" := "Label"; "description" := "d" ]} ].
Proof. reflexivity. Qed.

Example main_sampleFile_default :
  main sampleFile defaultOptions
  = [ {[ "id" := "a.fm"; "defaultMessage" := "FM" ]};
      {[ "id" := "a.hello"; "defaultMessage" := "Hello" ]};
      {[ "id" := "a.label"; "defaultMessage" := "Label"; "description" := "d" ]} ].
Proof. reflexivity. Qed.

Example main_bulkDeclarationFile :
  main bulkDeclarationFile defaultOptions
  = [ {[ "id" := "x"; "defaultMessage" := "y" ]} ].
Proof. reflexivity. Qed.

Example main_loggedCallFile : main loggedCallFile defaultOptions = [].
Proof. reflexivity. Qed.

(** ** Nodes of a tree *)

Lemma preorder_unfold n : preorder n = n :: (children n ≫= preorder).
Proof. unfold preorder. by rewrite walk_unfold. Qed.

Lemma preorder_self n : n ∈ preorder n.
Proof. rewrite preorder_unfold. apply list_elem_of_here. Qed.

Lemma preorder_child c n x : c ∈ children n → x ∈ preorder c → x ∈ preorder n.
Proof.
  intros Hc Hx. rewrite preorder_unfold. apply list_elem_of_further.
  apply list_elem_of_bind. eauto.
Qed.

Lemma preorder_trans n x y : x ∈ preorder n → y ∈ preorder x → y ∈ preorder n.
Proof.
  induction n as [n IH] using Node_children_ind. intros Hx Hy.
  rewrite preorder_unfold in Hx. apply elem_of_cons in Hx as [->|Hx]; [done|].
  apply list_elem_of_bind in Hx as (c & Hxc & Hc).
  rewrite Forall_forall in IH. eauto using preorder_child.
Qed.

(** A walk that stops early reaches only nodes of the tree. *)
Lemma walk_preorder stop n x : x ∈ walk stop n → x ∈ preorder n.
Proof.
  induction n as [n IH] using Node_children_ind. rewrite walk_unfold.
  intros [->|Hx]%elem_of_cons; [apply preorder_self|].
  destruct (stop n); [by apply elem_of_nil in Hx|].
  apply list_elem_of_bind in Hx as (c & Hxc & Hc).
  rewrite Forall_forall in IH. eauto using preorder_child.
Qed.

Lemma elem_of_filter_bool {A} (P : A → bool) (l : list A) (x : A) :
  x ∈ filter (λ y, P y) l ↔ P x = true ∧ x ∈ l.
Proof.
  rewrite list_elem_of_filter. destruct (P x); simpl; intuition congruence.
Qed.

Lemma visitedVarDecls_preorder sourceFile decl :
  decl ∈ visitedVarDecls sourceFile → decl ∈ preorder sourceFile.
Proof. intros [_ H]%elem_of_filter_bool. eauto using walk_preorder. Qed.

Lemma scannedObjects_inv node obj :
  obj ∈ scannedObjects node →
  obj ∈ preorder node ∧ ∃ properties, obj = ObjectLiteralExpression properties.
Proof.
  intros [Hobj H]%elem_of_filter_bool. split; [eauto using walk_preorder|].
  destruct obj; try discriminate Hobj. eauto.
Qed.

Lemma firstArgument_inv decl arg :
  firstArgument decl = Some arg →
  ∃ name type expression typeArguments rest,
    decl = VariableDeclaration name type
             (Some (CallExpression expression typeArguments (arg :: rest))).
Proof.
  destruct decl as [| | | | |nm ty [[| | | | | |e tas [|a args]| | | | | | | | | | |]|]
                   | | | | | | | | | | | |]; try discriminate.
  intros [= ->]. eauto 10.
Qed.

Lemma firstArgument_preorder decl arg :
  firstArgument decl = Some arg → arg ∈ preorder decl.
Proof.
  intros (nm & ty & e & tas & rest & ->)%firstArgument_inv.
  apply (preorder_child (CallExpression e tas (arg :: rest))).
  - unfold children. csimpl. set_solver.
  - apply (preorder_child arg); [|apply preorder_self].
    unfold children. csimpl. rewrite !bind_unit. set_solver.
Qed.

(** ** Where the fields of a descriptor come from *)

Lemma literalTexts_elem n v :
  v ∈ literalTexts n ↔ ∃ x, x ∈ preorder n ∧ literalText x = Some v.
Proof. unfold literalTexts. by rewrite list_elem_of_omap. Qed.

Lemma literalTexts_sub n x v :
  x ∈ preorder n → v ∈ literalTexts x → v ∈ literalTexts n.
Proof.
  rewrite !literalTexts_elem. intros Hx (y & Hy & Hv).
  eauto using preorder_trans.
Qed.

Lemma literalTexts_child n c v :
  c ∈ children n → v ∈ literalTexts c → v ∈ literalTexts n.
Proof.
  intros Hc. apply literalTexts_sub.
  eauto using preorder_child, preorder_self.
Qed.

Lemma literalText_texts n v : literalText n = Some v → v ∈ literalTexts n.
Proof. intros H. apply literalTexts_elem. eauto using preorder_self. Qed.

Lemma stringLiteralText_literalText n v :
  stringLiteralText n = Some v → literalText n = Some v.
Proof. by destruct n. Qed.

Lemma propertyAssignment_initializer_texts name initializer v :
  literalText initializer = Some v →
  v ∈ literalTexts (PropertyAssignment name initializer).
Proof.
  intros H. apply (literalTexts_child _ initializer).
  - unfold children. simpl. set_solver.
  - by apply literalText_texts.
Qed.

Lemma defineMessagesLiteral_texts ip key v :
  defineMessagesLiteral ip = Some (key, v) → v ∈ literalTexts ip.
Proof.
  destruct ip as [| | | | | | | |nm init| | | | | | | | |]; try discriminate.
  simpl. destruct (propertyKey nm); [|discriminate]. simpl.
  destruct (literalText init) eqn:Hinit; [|discriminate]. intros [= _ ->].
  by apply propertyAssignment_initializer_texts.
Qed.

Lemma formatMessageLiteral_texts p key v :
  formatMessageLiteral p = Some (key, v) → v ∈ literalTexts p.
Proof.
  destruct p as [| | | | | | | |nm init| | | | | | | | |]; try discriminate.
  simpl. destruct (propertyKey nm); [|discriminate]. simpl.
  destruct (stringLiteralText init) eqn:Hinit; [|discriminate]. intros [= _ ->].
  by apply propertyAssignment_initializer_texts, stringLiteralText_literalText.
Qed.

Lemma attributeLiteral_texts attr key v :
  attributeLiteral attr = Some (key, v) → v ∈ literalTexts attr.
Proof.
  destruct attr as [| | | | | | | | | | | | | |nm [init|]| | |]; try discriminate.
  destruct init as [| |t| | | | | | | | | | | | | |[e|]|]; try discriminate; simpl.
  - intros [= _ ->].
    apply (literalTexts_child _ (StringLiteral v));
      [unfold children; simpl; set_solver | by apply literalText_texts].
  - destruct (literalText e) eqn:He; [|discriminate]. intros [= _ ->].
    apply (literalTexts_child _ (JsxExpression (Some e)));
      [unfold children; simpl; set_solver|].
    apply (literalTexts_child _ e);
      [unfold children; simpl; set_solver | by apply literalText_texts].
Qed.

(** A field of a partial descriptor is a recognised key, and its value was
    offered by one of the items. *)
Lemma copied_field literal items key v :
  foldl (copyLiteral literal) ∅ items !! key = Some v →
  isMessageKey key = true
  ∧ ∃ item, item ∈ items ∧ literal item = Some (key, v).
Proof.
  destruct (isMessageKey key) eqn:Hkey.
  - rewrite foldl_copyLiteral_lookup by done. intros Hlast. split; [done|].
    assert (v ∈ valuesFor literal key items) as Hv.
    { destruct (last _) as [w|] eqn:Hw; [|by rewrite lookup_empty in Hlast].
      injection Hlast as ->. apply last_Some in Hw as [l' ->]. set_solver. }
    apply list_elem_of_omap in Hv as (item & Hitem & Hv). exists item.
    split; [done|]. destruct (literal item) as [[k w]|]; [|discriminate].
    simpl in Hv. case_bool_decide; [|discriminate]. by simplify_eq.
  - rewrite foldl_copyLiteral_unknown by done. by rewrite lookup_empty.
Qed.

Lemma readFrom_sub n x m : x ∈ preorder n → readFrom x m → readFrom n m.
Proof.
  intros Hx [Hvalid Hfields]. split; [done|]. intros key v Hkv.
  destruct (Hfields key v Hkv). eauto using literalTexts_sub.
Qed.

Lemma readFrom_child n c m : c ∈ children n → readFrom c m → readFrom n m.
Proof. intros Hc. apply readFrom_sub. eauto using preorder_child, preorder_self. Qed.

Lemma children_ObjectLiteralExpression properties :
  children (ObjectLiteralExpression properties) = properties.
Proof. unfold children. csimpl. apply bind_unit. Qed.

Lemma elementMessage_readFrom element m :
  elementMessage element = Some m → readFrom element m.
Proof.
  unfold elementMessage.
  destruct (isValidMessage _) eqn:Hvalid; [|discriminate]. intros [= <-].
  split; [done|]. intros key v.
  rewrite (foldl_ext_step _ (copyLiteral attributeLiteral))
    by apply attributeField_literal.
  intros (Hkey & attr & Hattr & Hlit)%copied_field. split; [done|].
  apply (literalTexts_child _ attr); [|by eapply attributeLiteral_texts].
  destruct element; try (by apply elem_of_nil in Hattr);
    unfold children; csimpl; rewrite !bind_unit; set_solver.
Qed.

Lemma extractMessagesForFormatMessage_readFrom obj m :
  m ∈ extractMessagesForFormatMessage obj → readFrom obj m.
Proof.
  unfold extractMessagesForFormatMessage.
  destruct (isValidMessage _) eqn:Hvalid; [|by intros ?%elem_of_nil].
  intros ->%list_elem_of_singleton.
  split; [done|]. intros key v.
  rewrite (foldl_ext_step _ (copyLiteral formatMessageLiteral))
    by apply formatMessageProperty_literal.
  intros (Hkey & p & Hp & Hlit)%copied_field. split; [done|].
  apply (literalTexts_child _ p); [|by eapply formatMessageLiteral_texts].
  destruct obj; try (by apply elem_of_nil in Hp).
  by rewrite children_ObjectLiteralExpression.
Qed.

Lemma defineMessagesProperty_readFrom p m :
  m ∈ defineMessagesProperty [] p → readFrom p m.
Proof.
  destruct p as [| | | | | | | |nm init| | | | | | | | |];
    try (by intros ?%elem_of_nil).
  destruct init as [| | | | | | |ips| | | | | | | | | |];
    try (by intros ?%elem_of_nil).
  simpl. destruct (isValidMessage _) eqn:Hvalid; [|by intros ?%elem_of_nil].
  intros ->%list_elem_of_singleton.
  apply (readFrom_child _ (ObjectLiteralExpression ips));
    [unfold children; simpl; set_solver|].
  split; [done|]. intros key v.
  rewrite (foldl_ext_step _ (copyLiteral defineMessagesLiteral))
    by apply defineMessagesField_literal.
  intros (Hkey & ip & Hip & Hlit)%copied_field. split; [done|].
  apply (literalTexts_child _ ip); [|by eapply defineMessagesLiteral_texts].
  by rewrite children_ObjectLiteralExpression.
Qed.

Lemma extractMessagesForDefineMessages_readFrom obj m :
  m ∈ extractMessagesForDefineMessages obj → readFrom obj m.
Proof.
  destruct obj as [| | | | | | |ps| | | | | | | | | |];
    try (by intros ?%elem_of_nil).
  rewrite extractMessagesForDefineMessages_bind.
  intros (p & Hm & Hp)%list_elem_of_bind.
  apply (readFrom_child _ p); [|by apply defineMessagesProperty_readFrom].
  by rewrite children_ObjectLiteralExpression.
Qed.

(** Each descriptor of a call pass is read from an object literal scanned
    under the first argument of a declaration that the walk visits and that
    calls [methodName]. *)
Lemma callDescriptors_origin sourceFile methodName extractMessages m :
  m ∈ callDescriptors sourceFile methodName extractMessages →
  ∃ decl arg obj,
    decl ∈ visitedVarDecls sourceFile
    ∧ isMethodCall decl methodName = true
    ∧ firstArgument decl = Some arg
    ∧ obj ∈ scannedObjects arg
    ∧ m ∈ extractMessages obj.
Proof.
  unfold callDescriptors, declDescriptors.
  intros (decl & Hm & Hdecl)%list_elem_of_bind.
  destruct (isMethodCall decl methodName) eqn:Hcall; [|by apply elem_of_nil in Hm].
  destruct (firstArgument decl) as [arg|] eqn:Harg; [|by apply elem_of_nil in Hm].
  simpl in Hm. apply list_elem_of_bind in Hm as (obj & Hm & Hobj).
  eauto 10.
Qed.

Lemma callDescriptors_readFrom sourceFile methodName extractMessages m :
  (∀ obj m, m ∈ extractMessages obj → readFrom obj m) →
  m ∈ callDescriptors sourceFile methodName extractMessages →
  readFrom sourceFile m.
Proof.
  intros Hex (decl & arg & obj & Hdecl & _ & Harg & Hobj & Hm)%callDescriptors_origin.
  apply scannedObjects_inv in Hobj as [Hobj _].
  apply (readFrom_sub _ obj); [|by apply Hex].
  eauto using preorder_trans, visitedVarDecls_preorder, firstArgument_preorder.
Qed.

Lemma markupDescriptors_readFrom sourceFile tagName m :
  m ∈ markupDescriptors sourceFile tagName → readFrom sourceFile m.
Proof.
  unfold markupDescriptors.
  intros (element & [_ Helement]%elem_of_filter_bool & Hm)%list_elem_of_omap.
  eauto using readFrom_sub, elementMessage_readFrom.
Qed.

(** Every descriptor of the output is read from the tree. *)
Lemma main_readFrom sourceFile options m :
  m ∈ main sourceFile options → readFrom sourceFile m.
Proof.
  rewrite main_parts, !findMethodCallsWithName_spec, !elem_of_app.
  intros [(tag & Hm & _)%list_elem_of_bind | [Hm | Hm]].
  - rewrite getElementsMessages_markup in Hm.
    by eapply markupDescriptors_readFrom.
  - eapply callDescriptors_readFrom; [|exact Hm].
    apply extractMessagesForDefineMessages_readFrom.
  - eapply callDescriptors_readFrom; [|exact Hm].
    apply extractMessagesForFormatMessage_readFrom.
Qed.

(** ** Mandatory fields *)

(** C4, as stated, fails: an element whose [id] and [defaultMessage] are
    the empty string literal is accepted, and the descriptor produced has
    both fields empty. *)
Lemma empty_fields_accepted :
  main emptyFieldsFile defaultOptions
  = [ {[ "id" := ""; "defaultMessage" := "" ]} ].
Proof. reflexivity. Qed.

(** C4, amended.  Every descriptor of the output has an [id] and a
    [defaultMessage], possibly empty, and each value it holds, the
    optional [description] included, is the text of a string literal or of
    a no-substitution template literal of the source tree. *)
Theorem main_fields_present_and_literal
    (sourceFile : Node) (options : Options) (m : Message) :
  m ∈ main sourceFile options →
  (∃ id defaultMessage,
     m !! "id" = Some id ∧ m !! "defaultMessage" = Some defaultMessage)
  ∧ ∀ key value, m !! key = Some value → value ∈ literalTexts sourceFile.
Proof.
  intros [Hvalid Hfields]%main_readFrom. split.
  - apply isValidMessage_true in Hvalid as [[id Hid] [dm Hdm]]. eauto.
  - intros key value Hkv. by destruct (Hfields key value Hkv).
Qed.

(** The theorem at the second descriptor of the sample file. *)
Lemma main_fields_present_and_literal_witness :
  {[ "id" := "a.msg"; "defaultMessage" := "Message" ]}
    ∈ main sampleFile sampleOptions
  ∧ (∃ id defaultMessage : string,
       ({[ "id" := "a.msg"; "defaultMessage" := "Message" ]} : Message) !! "id"
       = Some id
       ∧ ({[ "id" := "a.msg"; "defaultMessage" := "Message" ]} : Message)
           !! "defaultMessage" = Some defaultMessage)
  ∧ "Message" ∈ literalTexts sampleFile.
Proof.
  assert ({[ "id" := "a.msg"; "defaultMessage" := "Message" ]}
            ∈ main sampleFile sampleOptions) as Hm
    by (apply list_elem_of_lookup; exists 1; reflexivity).
  destruct (main_fields_present_and_literal sampleFile sampleOptions _ Hm)
    as [Hpresent Hliteral].
  split; [exact Hm|]. split; [exact Hpresent|].
  apply (Hliteral "defaultMessage"). reflexivity.
Defined.

(** ** Unknown keys *)

(** C7.  In each of the three matchers a property or attribute whose key
    is not [id], [defaultMessage] or [description] is ignored: writing it
    leaves the partial descriptor as it was.  No other key appears in a
    descriptor of the output. *)
Theorem unknown_keys_ignored
    (sourceFile : Node) (options : Options) (m : Message) (key : string) :
  m ∈ main sourceFile options →
  isMessageKey key = false →
  m !! key = None
  ∧ (∀ target value, copyIfMessageKey target key value = target)
  ∧ (∀ msg name initializer value,
       text_of name = key →
       defineMessagesField msg (PropertyAssignment name initializer) = msg
       ∧ formatMessageProperty msg (PropertyAssignment name initializer) = msg
       ∧ attributeField msg (JsxAttribute name value) = msg).
Proof.
  intros [_ Hfields]%main_readFrom Hkey. split; [|split].
  - destruct (m !! key) as [v|] eqn:Hv; [|reflexivity].
    destruct (Hfields key v Hv). congruence.
  - intros. by apply copyIfMessageKey_unknown.
  - intros msg name init value Hname.
    rewrite defineMessagesField_literal, formatMessageProperty_literal,
      attributeField_literal.
    unfold copyLiteral, defineMessagesLiteral, formatMessageLiteral,
      attributeLiteral, propertyKey.
    rewrite Hname. repeat split.
    + destruct (isIdentifier name || isLiteralExpression name),
        (literalText init); simpl; by rewrite ?copyIfMessageKey_unknown.
    + destruct (isIdentifier name || isLiteralExpression name),
        (stringLiteralText init); simpl; by rewrite ?copyIfMessageKey_unknown.
    + destruct value as [[| |t| | | | | | | | | | | | | |[e|]|]|]; simpl;
        rewrite ?copyIfMessageKey_unknown by done; try reflexivity.
      destruct (literalText e); simpl; by rewrite ?copyIfMessageKey_unknown.
Qed.

(** The theorem at the sample file and the key [values]. *)
Lemma unknown_keys_ignored_witness :
  {[ "id" := "a.hello"; "defaultMessage" := "Hello" ]}
    ∈ main sampleFile sampleOptions
  ∧ isMessageKey "values" = false
  ∧ ({[ "id" := "a.hello"; "defaultMessage" := "Hello" ]} : Message) !! "values"
    = None
  ∧ copyIfMessageKey ∅ "values" "v" = ∅.
Proof.
  assert ({[ "id" := "a.hello"; "defaultMessage" := "Hello" ]}
            ∈ main sampleFile sampleOptions) as Hm
    by (apply list_elem_of_lookup; exists 2; reflexivity).
  destruct (unknown_keys_ignored sampleFile sampleOptions _ "values" Hm eq_refl)
    as (Habsent & Hcopy & _).
  split; [exact Hm|]. split; [reflexivity|]. split; [exact Habsent|].
  apply Hcopy.
Defined.

(** ** Declarations inside declarations *)

(** A declaration that the walk visits contributes its descriptors. *)
Lemma visited_declaration_found sourceFile methodName extractMessages decl arg m :
  decl ∈ visitedVarDecls sourceFile →
  isMethodCall decl methodName = true →
  firstArgument decl = Some arg →
  m ∈ extractMessagesForNode extractMessages arg →
  m ∈ findMethodCallsWithName sourceFile methodName extractMessages.
Proof.
  intros Hdecl Hcall Harg Hm.
  rewrite findMethodCallsWithName_spec. rewrite extractMessagesForNode_spec in Hm.
  apply list_elem_of_bind. exists decl. split; [|done].
  unfold declDescriptors. by rewrite Hcall, Harg.
Qed.

(** C3.  The code at the failing input: the declaration
    [const m = defineMessages({ a: { id: "x", defaultMessage: "y" } })]
    yields its descriptor when it stands alone in a file, and nothing when
    it stands in the body of a function that initialises another variable,
    although it is a node of that tree and calls [defineMessages]:
    [forAllVarDecls] does not enter a variable declaration. *)
Theorem nested_declaration_not_found :
  isMethodCall bulkDeclaration "defineMessages" = true
  ∧ preorder nestedDeclarationFile !! 9 = Some bulkDeclaration
  ∧ main bulkDeclarationFile defaultOptions
    = [ {[ "id" := "x"; "defaultMessage" := "y" ]} ]
  ∧ main nestedDeclarationFile defaultOptions = [].
Proof. repeat split; reflexivity. Qed.

(** ** Resolution calls that initialise no variable *)

(** C6, as stated, fails: in
    [const t = formatMessage(formatMessage({ id: "c", defaultMessage: "d" }))]
    the inner call is an argument of another call, not the initializer of
    the declaration, and the descriptor of its argument is in the output;
    without that argument the output is empty. *)
Lemma nested_resolution_call_contributes :
  visitedVarDecls nestedCallFile
  = [constDeclaration "t" (callOf "formatMessage" [resolutionCall])]
  ∧ callOf "formatMessage" [resolutionCall] ≠ resolutionCall
  ∧ main nestedCallFile defaultOptions
    = [ {[ "id" := "c"; "defaultMessage" := "d" ]} ]
  ∧ main nestedEmptyCallFile defaultOptions = [].
Proof. repeat split; try reflexivity. discriminate. Qed.

(** C6, amended.  The [formatMessage] descriptors are the last part of the
    output, and each of them is read from an object literal scanned under
    the first argument of a variable declaration that the walk visits and
    whose initializer is a [formatMessage] call; a call that is neither such
    an initializer nor inside such a first argument contributes nothing,
    and when no visited declaration is initialised by a [formatMessage]
    call there is no such descriptor at all. *)
Theorem resolution_call_needs_initializer
    (sourceFile : Node) (options : Options) :
  let single :=
    findMethodCallsWithName sourceFile "formatMessage"
      extractMessagesForFormatMessage in
  main sourceFile options
  = ((("FormattedMessage" :: tagNames options) ≫= markupDescriptors sourceFile)
     ++ callDescriptors sourceFile "defineMessages"
          extractMessagesForDefineMessages)
    ++ single
  ∧ (∀ m, m ∈ single →
       ∃ decl arg obj,
         decl ∈ visitedVarDecls sourceFile
         ∧ isMethodCall decl "formatMessage" = true
         ∧ firstArgument decl = Some arg
         ∧ obj ∈ scannedObjects arg
         ∧ extractMessagesForFormatMessage obj = [m])
  ∧ (forallb (λ decl, negb (isMethodCall decl "formatMessage"))
       (visitedVarDecls sourceFile) = true →
     single = []).
Proof.
  intros single. subst single.
  split; [|rewrite findMethodCallsWithName_spec; split].
  - rewrite main_parts, findMethodCallsWithName_spec, app_assoc. do 2 f_equal.
    apply list_bind_ext; [|reflexivity].
    intros tagName. apply getElementsMessages_markup.
  - intros m (decl & arg & obj & Hdecl & Hcall & Harg & Hobj & Hm)%callDescriptors_origin.
    exists decl, arg, obj. repeat split; try done.
    unfold extractMessagesForFormatMessage in *.
    destruct (isValidMessage _); [|by apply elem_of_nil in Hm].
    by apply list_elem_of_singleton in Hm as ->.
  - unfold callDescriptors. intros Hnone.
    induction (visitedVarDecls sourceFile) as [|decl decls IH]; [reflexivity|].
    simpl in Hnone. apply andb_true_iff in Hnone as [Hdecl Hdecls].
    csimpl. rewrite IH by done. unfold declDescriptors.
    apply negb_true_iff in Hdecl. by rewrite Hdecl.
Qed.

(** The theorem at a file whose only [formatMessage] call is logged. *)
Lemma resolution_call_needs_initializer_witness :
  forallb (λ decl, negb (isMethodCall decl "formatMessage"))
    (visitedVarDecls bulkAndLoggedFile) = true
  ∧ findMethodCallsWithName bulkAndLoggedFile "formatMessage"
      extractMessagesForFormatMessage = []
  ∧ main bulkAndLoggedFile defaultOptions
    = [ {[ "id" := "x"; "defaultMessage" := "y" ]} ].
Proof.
  destruct (resolution_call_needs_initializer bulkAndLoggedFile defaultOptions)
    as (_ & _ & Hnone).
  split; [reflexivity|]. split; [apply Hnone; reflexivity | reflexivity].
Defined.

(** ** Raising and returning *)

Lemma children_SourceFile statements : children (SourceFile statements) = statements.
Proof. unfold children. csimpl. apply bind_unit. Qed.






(** *** The walks under a stack limit and an argument limit *)








Section LimitsFacts.
Variable maxArguments : nat.


















End LimitsFacts.






(** ** Template literals *)

(** C9.  The [formatMessage] extractor skips a property whose value is a
    no-substitution template literal: writing it changes nothing, the
    object yields the same result without it, and only a property
    assignment with a string literal value can change the partial
    descriptor.  The [defineMessages] extractor and the element extractor
    copy the text of such a template. *)
Theorem template_skipped_by_single_call
    (msg : PartialMessage) (name : Node) (key text : string)
    (before after : list Node) :
  formatMessageProperty msg
    (PropertyAssignment name (NoSubstitutionTemplateLiteral text)) = msg
  ∧ extractMessagesForFormatMessage
      (ObjectLiteralExpression
         (before
          ++ PropertyAssignment name (NoSubstitutionTemplateLiteral text)
          :: after))
    = extractMessagesForFormatMessage (ObjectLiteralExpression (before ++ after))
  ∧ (∀ p, formatMessageProperty msg p ≠ msg →
       ∃ name' text', p = PropertyAssignment name' (StringLiteral text'))
  ∧ defineMessagesField msg
      (PropertyAssignment (Identifier key) (NoSubstitutionTemplateLiteral text))
    = copyIfMessageKey msg key text
  ∧ attributeField msg
      (JsxAttribute (Identifier key)
         (Some (JsxExpression (Some (NoSubstitutionTemplateLiteral text)))))
    = copyIfMessageKey msg key text.
Proof.
  assert (∀ msg', formatMessageProperty msg'
            (PropertyAssignment name (NoSubstitutionTemplateLiteral text)) = msg')
    as Hskip by (intros; simpl; by rewrite andb_false_r).
  split; [apply Hskip|]. split; [|split; [|split; reflexivity]].
  - unfold extractMessagesForFormatMessage. simpl.
    rewrite !foldl_app. cbn [foldl]. by rewrite Hskip.
  - intros p Hp.
    destruct p as [| | | | | | | |nm init| | | | | | | | |]; try (by destruct Hp).
    destruct init; simpl in Hp; rewrite ?andb_false_r in Hp; try (by destruct Hp).
    eauto.
Qed.

Example templateObject_by_matcher :
  extractMessagesForFormatMessage templateObject = []
  ∧ defineMessagesProperty [] (PropertyAssignment (Identifier "a") templateObject)
    = [ {[ "id" := "t.id"; "defaultMessage" := "T" ]} ].
Proof. split; reflexivity. Qed.

(** ** Repeated fields *)

Lemma valuesFor_app literal key items1 items2 :
  valuesFor literal key (items1 ++ items2)
  = valuesFor literal key items1 ++ valuesFor literal key items2.
Proof. unfold valuesFor. apply omap_app. Qed.



(** * Further properties of the extractor *)

(** ** How the walks compose *)

Lemma isElementNamed_true tagName n :
  isElementNamed tagName n = true ↔
  isJsxOpeningLikeElement n = true ∧ tagName_of n = Some (Identifier tagName).
Proof.
  unfold isElementNamed.
  destruct n as [| | | | | | | | | | | |tg ? ?|tg ? ?| | | |]; simpl;
    try (split; [discriminate | intros [? ?]; discriminate]).
  all: rewrite andb_true_iff, bool_decide_eq_true; split.
  all: try (intros [Hid <-]; split; [reflexivity|];
            destruct tg; try discriminate Hid; reflexivity).
  all: intros [_ [= ->]]; split; reflexivity.
Qed.

(** X1.  The element walk finds exactly the opening and self-closing
    elements of the tree whose tag name is the identifier [tagName], at any
    depth. *)
Theorem element_found_iff (tagName : string) (sourceFile element : Node) :
  element ∈ findJsxOpeningLikeElementsWithName tagName sourceFile ↔
  element ∈ preorder sourceFile
  ∧ isJsxOpeningLikeElement element = true
  ∧ tagName_of element = Some (Identifier tagName).
Proof.
  rewrite findJsxOpeningLikeElementsWithName_spec, elem_of_filter_bool.
  rewrite isElementNamed_true. tauto.
Qed.

(** X2.  The element walk goes on below an element it has collected: its
    result at a node is the node itself, when it is named [tagName],
    followed by the results at the children, in source order. *)
Theorem element_walk_children (tagName : string) (n : Node) :
  findJsxOpeningLikeElementsWithName tagName n
  = (if isElementNamed tagName n then [n] else [])
    ++ (children n ≫= findJsxOpeningLikeElementsWithName tagName).
Proof.
  rewrite findJsxOpeningLikeElementsWithName_spec, preorder_unfold.
  rewrite filter_cons_bool, filter_bind.
  rewrite (list_bind_ext (findJsxOpeningLikeElementsWithName tagName)
             (λ c, filter (λ e, isElementNamed tagName e) (preorder c))
             (children n) (children n))
    by (intros; try apply findJsxOpeningLikeElementsWithName_spec; reflexivity).
  by destruct (isElementNamed tagName n).
Qed.

(** X3.  The scan of an argument hands an object literal to the extractor
    and does not look inside it; at any other node it is the scans of the
    children, in source order. *)
Theorem argument_scan_children
    (extractMessages : Node → list Message) (n : Node) :
  extractMessagesForNode extractMessages n
  = if isObjectLiteralExpression n then extractMessages n
    else children n ≫= extractMessagesForNode extractMessages.
Proof.
  rewrite extractMessagesForNode_spec. unfold scannedObjects.
  rewrite walk_unfold, filter_cons_bool.
  destruct (isObjectLiteralExpression n) eqn:Hn; csimpl.
  - apply app_nil_r.
  - rewrite filter_bind, bind_assoc. apply list_bind_ext; [|reflexivity].
    intros c. by rewrite extractMessagesForNode_spec.
Qed.

(** X4.  At a node that is not a variable declaration, a call pass is the
    passes over the children, in source order: statements, blocks and
    function bodies around a declaration change nothing. *)
Theorem call_pass_children
    (n : Node) (methodName : string) (extractMessages : Node → list Message) :
  isVariableDeclaration n = false →
  findMethodCallsWithName n methodName extractMessages
  = children n ≫= λ c, findMethodCallsWithName c methodName extractMessages.
Proof.
  intros Hn. rewrite findMethodCallsWithName_spec.
  unfold callDescriptors, visitedVarDecls.
  rewrite walk_unfold, filter_cons_bool, Hn, filter_bind, bind_assoc.
  apply list_bind_ext; [|reflexivity].
  intros c. by rewrite findMethodCallsWithName_spec.
Qed.

(** The theorem at a file of one statement. *)
Lemma call_pass_children_witness :
  isVariableDeclaration bulkDeclarationFile = false
  ∧ findMethodCallsWithName bulkDeclarationFile "defineMessages"
      extractMessagesForDefineMessages
    = findMethodCallsWithName (variableStatement [bulkDeclaration])
        "defineMessages" extractMessagesForDefineMessages ++ [].
Proof.
  split; [reflexivity|].
  exact (call_pass_children bulkDeclarationFile "defineMessages"
           extractMessagesForDefineMessages eq_refl).
Defined.

(** ** Files and options *)

Lemma bind_append_Permutation {A B} (F G : A → list B) (l : list A) :
  l ≫= (λ x, F x ++ G x) ≡ₚ (l ≫= F) ++ (l ≫= G).
Proof.
  induction l as [|x l IH]; csimpl; [reflexivity|].
  rewrite IH. solve_Permutation.
Qed.

Lemma element_pass_statements tagName statements1 statements2 :
  getElementsMessages
    (findJsxOpeningLikeElementsWithName tagName
       (SourceFile (statements1 ++ statements2)))
  = getElementsMessages
      (findJsxOpeningLikeElementsWithName tagName (SourceFile statements1))
    ++ getElementsMessages
         (findJsxOpeningLikeElementsWithName tagName (SourceFile statements2)).
Proof.
  rewrite !findJsxOpeningLikeElementsWithName_spec, !preorder_unfold.
  rewrite !children_SourceFile, !filter_cons_bool. cbn [isElementNamed tagName_of].
  rewrite bind_app, filter_app. apply omap_app.
Qed.

Lemma call_pass_statements methodName extractMessages statements1 statements2 :
  findMethodCallsWithName (SourceFile (statements1 ++ statements2))
    methodName extractMessages
  = findMethodCallsWithName (SourceFile statements1) methodName extractMessages
    ++ findMethodCallsWithName (SourceFile statements2) methodName
         extractMessages.
Proof.
  rewrite !findMethodCallsWithName_spec. unfold callDescriptors, visitedVarDecls.
  rewrite !walk_unfold, !children_SourceFile, !filter_cons_bool.
  cbn [isVariableDeclaration].
  by rewrite bind_app, filter_app, bind_app.
Qed.

(** X5.  The descriptors of a file whose statements are those of two files,
    one after the other, are the descriptors of the two files, each as
    often as there; only their order differs, since the output is grouped
    by pattern. *)
Theorem main_statements_app
    (statements1 statements2 : list Node) (options : Options) :
  main (SourceFile (statements1 ++ statements2)) options
  ≡ₚ main (SourceFile statements1) options
     ++ main (SourceFile statements2) options.
Proof.
  rewrite !main_parts, !call_pass_statements.
  rewrite (list_bind_ext _
             (λ tagName,
                getElementsMessages
                  (findJsxOpeningLikeElementsWithName tagName
                     (SourceFile statements1))
                ++ getElementsMessages
                     (findJsxOpeningLikeElementsWithName tagName
                        (SourceFile statements2)))
             _ ("FormattedMessage" :: tagNames options))
    by (intros; try apply element_pass_statements; reflexivity).
  rewrite bind_append_Permutation. solve_Permutation.
Qed.

(** X6.  More tag names never take a descriptor away: the output for a list
    of tag names is a sublist of the output for a longer list. *)
Theorem main_more_tag_names (sourceFile : Node) (tags more : list string) :
  main sourceFile {| tagNames := tags |}
  `sublist_of` main sourceFile {| tagNames := tags ++ more |}.
Proof.
  rewrite !main_parts. cbn [tagNames].
  rewrite !bind_cons, bind_app, <- !app_assoc.
  repeat (apply sublist_app; [reflexivity|]).
  apply sublist_inserts_l. reflexivity.
Qed.

(** X7.  Tag names are not deduplicated: with the built-in tag name among
    the caller's, each of its descriptors is produced once more. *)
Theorem main_repeated_default_tag (sourceFile : Node) (tags : list string) :
  main sourceFile {| tagNames := "FormattedMessage" :: tags |}
  = getElementsMessages
      (findJsxOpeningLikeElementsWithName "FormattedMessage" sourceFile)
    ++ main sourceFile {| tagNames := tags |}.
Proof.
  rewrite !main_parts. cbn [tagNames].
  by rewrite (bind_cons _ "FormattedMessage" ("FormattedMessage" :: tags)),
    <- !app_assoc.
Qed.

(** ** What a candidate yields *)

(** Fields, once written, stay: a key present before a property or
    attribute is processed is present after it. *)
Lemma copyIfMessageKey_keeps target key value k :
  is_Some (target !! k) → is_Some (copyIfMessageKey target key value !! k).
Proof.
  intros Hk. destruct (isMessageKey key) eqn:Hkey.
  - rewrite copyIfMessageKey_known by done.
    destruct (decide (key = k)) as [->|Hne].
    + rewrite lookup_insert_eq. eauto.
    + by rewrite lookup_insert_ne.
  - by rewrite copyIfMessageKey_unknown.
Qed.

Lemma foldl_copyLiteral_keeps literal items msg k :
  is_Some (msg !! k) → is_Some (foldl (copyLiteral literal) msg items !! k).
Proof.
  revert msg. induction items as [|item items IH]; intros msg Hk; [done|].
  simpl. apply IH. unfold copyLiteral.
  destruct (literal item) as [[key value]|]; [|done].
  by apply copyIfMessageKey_keeps.
Qed.

Lemma foldl_copyLiteral_valid_app literal before items after :
  isValidMessage (foldl (copyLiteral literal) ∅ items) = true →
  isValidMessage (foldl (copyLiteral literal) ∅ (before ++ items ++ after)) = true.
Proof.
  rewrite !isValidMessage_true.
  assert (∀ k, isMessageKey k = true →
            is_Some (foldl (copyLiteral literal) ∅ items !! k) →
            is_Some (foldl (copyLiteral literal) ∅ (before ++ items ++ after) !! k))
    as Hkeep.
  { intros k Hk. rewrite !foldl_copyLiteral_lookup by done.
    rewrite !valuesFor_app, lookup_empty.
    destruct (last (valuesFor literal k items)) as [v|] eqn:Hlast;
      [intros _|by intros [? ?]].
    assert (is_Some (last (valuesFor literal k before
                           ++ valuesFor literal k items
                           ++ valuesFor literal k after))) as [w ->]; [|eauto].
    apply last_is_Some. intros Hnil.
    apply app_eq_nil in Hnil as [_ [Hnil _]%app_eq_nil].
    by rewrite Hnil in Hlast. }
  intros [Hid Hdm]. split; by apply Hkeep.
Qed.

(** X8.  Attributes and properties never invalidate a candidate: an element
    that yields a descriptor still yields one with further attributes
    before and after its own, and so does the object of a [formatMessage]
    call with further properties. *)
Theorem more_fields_keep_candidate
    (tagName : Node) (typeArguments before items after : list Node) :
  (is_Some (elementMessage (JsxSelfClosingElement tagName typeArguments items)) →
   is_Some (elementMessage
              (JsxSelfClosingElement tagName typeArguments
                 (before ++ items ++ after))))
  ∧ (extractMessagesForFormatMessage (ObjectLiteralExpression items) ≠ [] →
     extractMessagesForFormatMessage
       (ObjectLiteralExpression (before ++ items ++ after)) ≠ []).
Proof.
  unfold elementMessage, extractMessagesForFormatMessage. simpl.
  rewrite !(foldl_ext_step attributeField (copyLiteral attributeLiteral))
    by apply attributeField_literal.
  rewrite !(foldl_ext_step formatMessageProperty (copyLiteral formatMessageLiteral))
    by apply formatMessageProperty_literal.
  split.
  - destruct (isValidMessage (foldl _ ∅ items)) eqn:Hvalid;
      [|by intros [? ?]].
    intros _. by rewrite foldl_copyLiteral_valid_app.
  - destruct (isValidMessage (foldl _ ∅ items)) eqn:Hvalid; [|done].
    intros _. by rewrite foldl_copyLiteral_valid_app.
Qed.

(** The theorem at the sample element, with its attributes after a
    [values] attribute and before a repeated [id]. *)
Lemma more_fields_keep_candidate_witness :
  is_Some (elementMessage sampleElement)
  ∧ is_Some (elementMessage
               (JsxSelfClosingElement (Identifier "Msg") []
                  ([stringAttribute "values" "v"]
                   ++ attributes_of sampleElement
                   ++ [stringAttribute "id" "a.other"]))).
Proof.
  assert (is_Some (elementMessage sampleElement)) as Hvalid by (eexists; reflexivity).
  split; [exact Hvalid|].
  exact (proj1 (more_fields_keep_candidate (Identifier "Msg") []
                  [stringAttribute "values" "v"] (attributes_of sampleElement)
                  [stringAttribute "id" "a.other"]) Hvalid).
Defined.

(** X9.  A candidate yields at most one descriptor: the elements, the
    properties of a [defineMessages] object and the object of a
    [formatMessage] call bound the number of descriptors read from them. *)
Theorem descriptor_counts (elements : list Node) (obj : Node) :
  (length (getElementsMessages elements) ≤ length elements)%nat
  ∧ (length (extractMessagesForDefineMessages obj)
     ≤ length (properties_of obj))%nat
  ∧ (length (extractMessagesForFormatMessage obj) ≤ 1)%nat.
Proof.
  split; [|split].
  - unfold getElementsMessages.
    induction elements as [|e es IH]; csimpl; [done|].
    destruct (elementMessage e); simpl; lia.
  - unfold extractMessagesForDefineMessages.
    rewrite foldl_defineMessagesProperty. simpl.
    induction (properties_of obj) as [|p ps IH]; csimpl; [done|].
    rewrite length_app.
    assert (length (defineMessagesProperty [] p) ≤ 1)%nat; [|lia].
    destruct p as [| | | | | | | |nm init| | | | | | | | |]; simpl; try lia.
    destruct init; simpl; try lia.
    destruct (isValidMessage _); simpl; lia.
  - unfold extractMessagesForFormatMessage.
    destruct (isValidMessage _); simpl; lia.
Qed.

(** ** What the call passes leave out *)

Lemma isMethodCall_firstArgument decl methodName arg :
  isMethodCall decl methodName = true →
  firstArgument decl = Some arg →
  isIdentifierCallWithArgument decl = true.
Proof.
  intros Hcall (nm & ty & e & tas & rest & ->)%firstArgument_inv.
  simpl in Hcall. apply andb_true_iff in Hcall as [He _].
  by destruct e.
Qed.

(** X11.  A call pass reads a declaration only when its initializer is a call
    whose callee is a plain identifier and that has an argument: when no
    visited declaration is of that form (the callee is a property access
    such as [intl.formatMessage], the call has no argument, there is no
    initializer), the pass yields nothing, whatever the name looked for. *)
Theorem call_pass_needs_identifier_callee
    (sourceFile : Node) (methodName : string)
    (extractMessages : Node → list Message) :
  forallb (λ decl, negb (isIdentifierCallWithArgument decl))
    (visitedVarDecls sourceFile) = true →
  findMethodCallsWithName sourceFile methodName extractMessages = [].
Proof.
  rewrite findMethodCallsWithName_spec. unfold callDescriptors.
  induction (visitedVarDecls sourceFile) as [|decl decls IH]; [reflexivity|].
  cbn [forallb]. intros [Hdecl Hdecls]%andb_true_iff.
  rewrite bind_cons, IH by done.
  rewrite app_nil_r. unfold declDescriptors.
  destruct (isMethodCall decl methodName) eqn:Hcall; [|reflexivity].
  destruct (firstArgument decl) as [arg|] eqn:Harg; [|reflexivity].
  rewrite (isMethodCall_firstArgument _ _ _ Hcall Harg) in Hdecl.
  discriminate.
Qed.

(** The theorem at a file that calls [intl.formatMessage] with a
    descriptor, [formatMessage] without argument, and declares a variable
    without initializer. *)
Lemma call_pass_needs_identifier_callee_witness :
  forallb (λ decl, negb (isIdentifierCallWithArgument decl))
    (visitedVarDecls intlCallFile) = true
  ∧ List.length (visitedVarDecls intlCallFile) = 3%nat
  ∧ findMethodCallsWithName intlCallFile "formatMessage"
      extractMessagesForFormatMessage = [].
Proof.
  split; [reflexivity|]. split; [reflexivity|].
  exact (call_pass_needs_identifier_callee intlCallFile "formatMessage"
           extractMessagesForFormatMessage eq_refl).
Defined.

(** X12.  A declaration is read by at most one call pass: it calls one
    method name only. *)
Theorem isMethodCall_one_name (decl : Node) (name1 name2 : string) :
  isMethodCall decl name1 = true →
  isMethodCall decl name2 = true →
  name1 = name2.
Proof.
  destruct decl as [| | | | |nm ty [[| | | | | |e tas args| | | | | | | | | | |]|]
                   | | | | | | | | | | | |]; try discriminate.
  simpl. intros [_ H1%bool_decide_eq_true]%andb_true_iff
                [_ H2%bool_decide_eq_true]%andb_true_iff.
  congruence.
Qed.

(** The theorem at the sample [defineMessages] declaration. *)
Lemma isMethodCall_one_name_witness :
  isMethodCall bulkDeclaration "defineMessages" = true
  ∧ isMethodCall bulkDeclaration "formatMessage" = false.
Proof.
  split; [reflexivity|].
  destruct (isMethodCall bulkDeclaration "formatMessage") eqn:Hfm; [|reflexivity].
  discriminate (isMethodCall_one_name bulkDeclaration
                  "defineMessages" "formatMessage" eq_refl Hfm).
Defined.

Lemma formatMessageProperty_needs_string msg p :
  hasStringValue p = false → formatMessageProperty msg p = msg.
Proof.
  destruct p as [| | | | | | | |nm init| | | | | | | | |]; try reflexivity.
  destruct init; try discriminate; intros _; simpl; by rewrite ?andb_false_r.
Qed.

(** X13.  The two extractors read different shapes.  An object none of
    whose properties has an object literal as value, such as a descriptor
    written directly as the argument, yields nothing under
    [defineMessages]; an object none of whose properties has a string
    literal as value, such as a map of descriptors, yields nothing under
    [formatMessage]. *)
Theorem extractors_need_their_shape (obj : Node) :
  (forallb (λ p, negb (hasObjectValue p)) (properties_of obj) = true →
   extractMessagesForDefineMessages obj = [])
  ∧ (forallb (λ p, negb (hasStringValue p)) (properties_of obj) = true →
     extractMessagesForFormatMessage obj = []).
Proof.
  split.
  - unfold extractMessagesForDefineMessages.
    rewrite foldl_defineMessagesProperty. simpl.
    induction (properties_of obj) as [|p ps IH]; [reflexivity|].
    cbn [forallb]. intros [Hp Hps]%andb_true_iff.
    rewrite bind_cons, IH by done.
    rewrite app_nil_r.
    destruct p as [| | | | | | | |nm init| | | | | | | | |]; try reflexivity.
    destruct init; try reflexivity. discriminate Hp.
  - unfold extractMessagesForFormatMessage. intros Hnone.
    assert (foldl formatMessageProperty ∅ (properties_of obj) = ∅) as ->;
      [|reflexivity].
    generalize (∅ : PartialMessage).
    induction (properties_of obj) as [|p ps IH]; intros msg; [reflexivity|].
    simpl in Hnone. apply andb_true_iff in Hnone as [Hp Hps].
    simpl. rewrite formatMessageProperty_needs_string
      by (by apply negb_true_iff).
    by apply IH.
Qed.

(** The theorem at a descriptor and at a map of one descriptor. *)
Lemma extractors_need_their_shape_witness :
  extractMessagesForDefineMessages flatObject = []
  ∧ extractMessagesForFormatMessage flatObject
    = [ {[ "id" := "c"; "defaultMessage" := "d" ]} ]
  ∧ extractMessagesForFormatMessage keyedObject = []
  ∧ extractMessagesForDefineMessages keyedObject
    = [ {[ "id" := "c"; "defaultMessage" := "d" ]} ].
Proof.
  split; [exact (proj1 (extractors_need_their_shape flatObject) eq_refl)|].
  split; [reflexivity|].
  split; [exact (proj2 (extractors_need_their_shape keyedObject) eq_refl)|].
  reflexivity.
Defined.

(** X14.  The order of the tag names decides the order of the output and
    nothing else: two lists with the same tag names, each as often, give
    the same descriptors, each as often. *)
Theorem main_tag_names_permutation
    (sourceFile : Node) (tags1 tags2 : list string) :
  tags1 ≡ₚ tags2 →
  main sourceFile {| tagNames := tags1 |}
  ≡ₚ main sourceFile {| tagNames := tags2 |}.
Proof.
  intros Htags. rewrite !main_parts. cbn [tagNames].
  rewrite !bind_cons. by rewrite Htags.
Qed.

(** The theorem at the sample file and two orders of two tag names. *)
Lemma main_tag_names_permutation_witness :
  ["Msg"; "FormattedMessage"] ≡ₚ ["FormattedMessage"; "Msg"]
  ∧ main sampleFile {| tagNames := ["Msg"; "FormattedMessage"] |}
    ≡ₚ main sampleFile {| tagNames := ["FormattedMessage"; "Msg"] |}.
Proof.
  assert (["Msg"; "FormattedMessage"] ≡ₚ ["FormattedMessage"; "Msg"]) as Htags
    by apply Permutation_swap.
  split; [exact Htags|].
  exact (main_tag_names_permutation sampleFile _ _ Htags).
Defined.
